(** * gaba: asset detection, token balances and state composition

    A shallow embedding of three controllers of the repository,
    [AssetsDetectionController], [TokenBalancesController] and
    [ComposableController], together with the statements of their
    specification that were checked against them.

    Conventions of the embedding.
    - A JavaScript object used as a dictionary whose iteration order is
      observed ([for ... in]) is an association list in iteration order; one
      that is only read by key is a [gmap].
    - The callbacks injected into a controller (the asset store's mutators,
      the balance fetchers) are not run: a pass produces the list of calls it
      issues, and a fetch is given by its outcome.
    - An exception or a rejected promise is the [Threw] outcome.
    - Promises that are awaited together settle in an order the event loop
      chooses; that order is an argument of the pass, and the statements
      hold for every order. *)

From Stdlib Require Import ZArith List String Ascii Bool Lia.
From Stdlib Require Import DecimalNat DecimalString.
From stdpp Require Import gmap strings list fin_maps.
Import ListNotations.

Local Open Scope Z_scope.

(* ===================================================================== *)
(** ** Keccak-256

    [toChecksumAddress] of ethereumjs-util hashes the lower-case address with
    Keccak-256 (the original padding, not SHA-3's).  Lanes are 64-bit
    integers kept in [Z], the state is the list of its 25 lanes, lane
    [(x, y)] at index [x + 5 * y]. *)

Module Keccak.

Definition mask64 : Z := Z.ones 64.

Definition rotl64 (v : Z) (n : Z) : Z :=
  Z.land (Z.lor (Z.shiftl v n) (Z.shiftr v (64 - n))) mask64.

Definition lane (st : list Z) (x y : nat) : Z :=
  nth ((x mod 5) + 5 * (y mod 5))%nat st 0.

Definition round_constants : list Z :=
  [ 0x0000000000000001; 0x0000000000008082; 0x800000000000808A;
    0x8000000080008000; 0x000000000000808B; 0x0000000080000001;
    0x8000000080008081; 0x8000000000008009; 0x000000000000008A;
    0x0000000000000088; 0x0000000080008009; 0x000000008000000A;
    0x000000008000808B; 0x800000000000008B; 0x8000000000008089;
    0x8000000000008003; 0x8000000000008002; 0x8000000000000080;
    0x000000000000800A; 0x800000008000000A; 0x8000000080008081;
    0x8000000000008080; 0x0000000080000001; 0x8000000080008008 ].

(** Rotation offsets, indexed like the state. *)
Definition rotation_offsets : list Z :=
  [  0;  1; 62; 28; 27;
    36; 44;  6; 55; 20;
     3; 10; 43; 25; 39;
    41; 45; 15; 21;  8;
    18;  2; 61; 56; 14 ].

Definition coords : list (nat * nat) :=
  flat_map (fun y => List.map (fun x => (x, y)) (seq 0 5)) (seq 0 5).

Definition theta (st : list Z) : list Z :=
  let C x := fold_left Z.lxor (List.map (fun y => lane st x y) (seq 0 5)) 0 in
  let D x := Z.lxor (C (x + 4)%nat) (rotl64 (C (x + 1)%nat) 1) in
  List.map (fun '(x, y) => Z.lxor (lane st x y) (D x)) coords.

(** rho and pi together: the lane written at [(x, y)] is the rotation of the
    lane read at [(x + 3 * y, x)]. *)
Definition rho_pi (st : list Z) : list Z :=
  List.map (fun '(x, y) =>
         let sx := ((x + 3 * y) mod 5)%nat in
         let sy := x in
         rotl64 (lane st sx sy) (nth (sx + 5 * sy)%nat rotation_offsets 0))
      coords.

Definition chi (st : list Z) : list Z :=
  List.map (fun '(x, y) =>
         Z.lxor (lane st x y)
                (Z.land (Z.lxor (lane st (x + 1) y) mask64) (lane st (x + 2) y)))
      coords.

Definition iota (rc : Z) (st : list Z) : list Z :=
  match st with
  | [] => []
  | a :: rest => Z.lxor a rc :: rest
  end.

Definition round (st : list Z) (rc : Z) : list Z :=
  iota rc (chi (rho_pi (theta st))).

Definition keccak_f (st : list Z) : list Z :=
  fold_left round round_constants st.

(** Bytes of a block to little-endian lanes and back. *)
Fixpoint le_word (bs : list Z) : Z :=
  match bs with
  | [] => 0
  | b :: rest => Z.lor b (Z.shiftl (le_word rest) 8)
  end.

Fixpoint chunks {A} (n : nat) (fuel : nat) (l : list A) : list (list A) :=
  match fuel with
  | O => []
  | S fuel' =>
      match l with
      | [] => []
      | _ => firstn n l :: chunks n fuel' (skipn n l)
      end
  end.

Definition rate : nat := 136.

(** Keccak padding [pad10*1] with the domain byte [0x01]. *)
Definition pad (msg : list Z) : list Z :=
  let q := (rate - (List.length msg) mod rate)%nat in
  if (q =? 1)%nat then msg ++ [0x81]
  else msg ++ [0x01] ++ List.repeat 0 (q - 2) ++ [0x80].

Definition absorb (st : list Z) (block : list Z) : list Z :=
  let lanes := List.map le_word (chunks 8 17 block) in
  let lanes := lanes ++ List.repeat 0 (25 - List.length lanes) in
  keccak_f (List.map (fun '(a, b) => Z.lxor a b) (combine st lanes)).

Definition lane_bytes (v : Z) : list Z :=
  List.map (fun i => Z.land (Z.shiftr v (8 * Z.of_nat i)) 255) (seq 0 8).

Definition keccak256 (msg : list Z) : list Z :=
  let padded := pad msg in
  let blocks := chunks rate (List.length padded) padded in
  let st := fold_left absorb blocks (List.repeat 0 25) in
  firstn 32 (flat_map lane_bytes st).

End Keccak.

(* ===================================================================== *)
(** ** Strings, hexadecimal and checksum addresses *)

Definition bytes_of_string (s : string) : list Z :=
  List.map (fun c => Z.of_N (N_of_ascii c)) (list_ascii_of_string s).

Definition hex_digit (v : Z) : ascii :=
  nth (Z.to_nat v) (list_ascii_of_string "0123456789abcdef") "0"%char.

(** [Buffer.toString('hex')]: two lower-case digits per byte. *)
Definition hex_of_bytes (bs : list Z) : list ascii :=
  flat_map (fun b => [hex_digit (Z.shiftr b 4); hex_digit (Z.land b 15)]) bs.

Definition is_upper (c : ascii) : bool :=
  let n := N_of_ascii c in ((65 <=? n) && (n <=? 90))%N.

Definition is_lower (c : ascii) : bool :=
  let n := N_of_ascii c in ((97 <=? n) && (n <=? 122))%N.

Definition lower_char (c : ascii) : ascii :=
  if is_upper c then ascii_of_N (N_of_ascii c + 32) else c.

Definition upper_char (c : ascii) : ascii :=
  if is_lower c then ascii_of_N (N_of_ascii c - 32) else c.

(** [String.prototype.toLowerCase] on the ASCII strings addresses are. *)
Definition toLowerCase (s : string) : string :=
  string_of_list_ascii (List.map lower_char (list_ascii_of_string s)).

(** [stripHexPrefix]: drops one leading ["0x"]. *)
Definition stripHexPrefix (s : string) : string :=
  match s with
  | String "0" (String "x" rest) => rest
  | _ => s
  end.

(** [parseInt(h, 16) >= 8] for a digit of the hash's hex form. *)
Definition hash_digit_high (h : ascii) : bool :=
  match h with
  | "8" | "9" | "a" | "b" | "c" | "d" | "e" | "f" => true
  | _ => false
  end%char.

(** The loop of [toChecksumAddress]: character [i] of the address is
    upper-cased when digit [i] of the hash is at least 8; past the end of the
    hash the digit is [undefined] and the character is kept. *)
Fixpoint checksum_chars (addr : list ascii) (hash : list ascii) : list ascii :=
  match addr with
  | [] => []
  | c :: addr' =>
      match hash with
      | h :: hash' =>
          (if hash_digit_high h then upper_char c else c)
            :: checksum_chars addr' hash'
      | [] => c :: checksum_chars addr' []
      end
  end.

Definition is_hex_char (c : ascii) : bool :=
  let n := N_of_ascii c in
  (((48 <=? n) && (n <=? 57)) || ((65 <=? n) && (n <=? 70))
   || ((97 <=? n) && (n <=? 102)))%N.

(** [isHexString]: the pattern [0x] followed by hexadecimal digits only. *)
Definition isHexString (s : string) : bool :=
  match s with
  | String "0" (String "x" rest) => forallb is_hex_char (list_ascii_of_string rest)
  | _ => false
  end.

Definition hex_value (c : ascii) : Z :=
  let n := Z.of_N (N_of_ascii c) in
  if n <=? 57 then n - 48 else if n <=? 70 then n - 55 else n - 87.

Fixpoint hex_pairs (cs : list ascii) : list Z :=
  match cs with
  | hi :: lo :: rest => (16 * hex_value hi + hex_value lo) :: hex_pairs rest
  | _ => []
  end.

(** The bytes ethereumjs-util's [keccak] hashes for a string argument: the
    characters themselves, unless the string is itself a hex string, which
    [toBuffer] decodes (after [padToEven]). *)
Definition keccak_input (a : string) : list Z :=
  if isHexString a then
    let digits := list_ascii_of_string (stripHexPrefix a) in
    hex_pairs (if Nat.even (List.length digits) then digits
               else "0"%char :: digits)
  else bytes_of_string a.

(** ethereumjs-util's [toChecksumAddress] (imported at the top of
    AssetsDetectionController), as in its versions 5 and 6: strip the prefix,
    lower-case, hash, re-case.  (Version 7 first rejects an argument that is
    not a hex string and always hashes the characters; the versions agree on
    every [0x]-prefixed hexadecimal address.) *)
Definition toChecksumAddress (address : string) : string :=
  let address := toLowerCase (stripHexPrefix address) in
  let hash := hex_of_bytes (Keccak.keccak256 (keccak_input address)) in
  String "0" (String "x"
    (string_of_list_ascii (checksum_chars (list_ascii_of_string address) hash))).

(* ===================================================================== *)
(** ** JavaScript values *)

(** A number that is a token id: [NaN] or an integer value. *)
Inductive JsNumber : Type :=
| JsNaN
| JsNum (v : Z).

(** [===] on numbers: [NaN] equals nothing, not even itself. *)
Definition strict_equal (a b : JsNumber) : bool :=
  match a, b with
  | JsNum x, JsNum y => x =? y
  | _, _ => false
  end.

(** What a call gives: a value, or an exception (a rejection, for a
    promise). *)
Inductive outcome (A : Type) : Type :=
| Returned (a : A)
| Threw.
Arguments Returned {A} a.
Arguments Threw {A}.

(** Truthiness of a string: only the empty string is falsy. *)
Definition truthy (s : string) : bool := negb (String.eqb s "").

Definition string_of_index (i : nat) : string :=
  DecimalString.NilZero.string_of_uint (Nat.to_uint i).

(** Properties every array inherits from [Array.prototype] and
    [Object.prototype]. *)
Definition array_prototype_keys : list string :=
  [ "constructor"; "concat"; "copyWithin"; "fill"; "find"; "findIndex";
    "lastIndexOf"; "pop"; "push"; "reverse"; "shift"; "unshift"; "slice";
    "sort"; "splice"; "includes"; "indexOf"; "join"; "keys"; "entries";
    "values"; "forEach"; "filter"; "flat"; "flatMap"; "map"; "every";
    "some"; "reduce"; "reduceRight"; "toLocaleString"; "toString";
    "hasOwnProperty"; "isPrototypeOf"; "propertyIsEnumerable"; "valueOf";
    "__proto__"; "__defineGetter__"; "__defineSetter__";
    "__lookupGetter__"; "__lookupSetter__" ]%string.

(** [key in arr] for an array [arr]: [key] names a property of the array,
    that is an index below its length, [length], or an inherited one. *)
Definition in_array {A} (key : string) (arr : list A) : bool :=
  existsb (fun i => String.eqb key (string_of_index i)) (seq 0 (List.length arr))
  || String.eqb key "length"
  || existsb (String.eqb key) array_prototype_keys.

(** [obj[key]] on an object given by its entries in iteration order, for a
    key that names no property of [Object.prototype]: such a key (an address,
    say) is found among the object's own entries or not at all. *)
Fixpoint get {V} (obj : list (string * V)) (key : string) : option V :=
  match obj with
  | [] => None
  | (k, v) :: rest => if String.eqb k key then Some v else get rest key
  end.

(* ===================================================================== *)
(** ** Data model *)

(** [balanceError] of a token: never set, [null], or the error caught. *)
Inductive BalanceError : Type :=
| ErrorUnset
| ErrorNull
| ErrorThrown (error : string).

Record Token : Type := mkToken {
  token_address : string;
  token_decimals : Z;
  token_symbol : string;
  token_balanceError : BalanceError
}.

Record Collectible : Type := mkCollectible {
  address : string;
  tokenId : JsNumber;
  name : string;
  image : string;
  description : string
}.

Record CollectibleInformation : Type := mkInformation {
  info_description : string;
  info_image : string;
  info_name : string
}.

(** An entry of the marketplace's answer; [asset_address] is
    [asset_contract.address]. *)
Record ApiCollectibleResponse : Type := mkApiCollectible {
  token_id : string;
  image_original_url : string;
  api_name : string;
  api_description : string;
  asset_address : string
}.

(** An entry of [@metamask/contract-metadata]. *)
Record ContractEntry : Type := mkContract {
  erc20 : bool;
  symbol : string;
  decimals : Z
}.

Record AssetsDetectionConfig : Type := mkConfig {
  interval : Z;
  networkType : string;
  selectedAddress : string;
  tokens : list Token
}.

(** The part of the asset store's state the controller keeps. *)
Record AssetsState : Type := mkAssetsState {
  collectibles : list Collectible;
  ignoredCollectibles : list Collectible;
  ignoredTokens : list Token
}.

(** Calls on the asset store's mutators. *)
Inductive StoreCall : Type :=
| AddTokens (tokensToAdd : list Token)
| AddCollectible (address : string) (tokenId : JsNumber)
                 (opts : CollectibleInformation) (detection : bool)
| RemoveCollectible (address : string) (tokenId : JsNumber).

Definition MAINNET : string := "mainnet".
Definition DEFAULT_INTERVAL : Z := 180000.

(* ===================================================================== *)
(** ** AssetsDetectionController: the two detection passes *)

(** The controller as the passes read it: its configuration, the
    [disabled] flag of the base class and the last asset state received.
    A pass reads the controller when it starts ([this]) and again when the
    fetch it awaited has resolved ([resumed]): the listeners registered in
    the constructor may have run in between. *)
Record Detector : Type := mkDetector {
  config : AssetsDetectionConfig;
  disabled : bool;
  assetsState : AssetsState
}.

(** [isMainnet] *)
Definition isMainnet (this : Detector) : bool :=
  if negb (String.eqb (networkType (config this)) MAINNET) || disabled this
  then false
  else true.

(** Modelled from the spec: [safelyExecute] of util, which is not among the
    sources.  A failure inside a pass is "recovered locally", "nothing in
    this core is treated as fatal" and "no error is surfaced": the operation
    is run, what it throws is swallowed, and what it did before throwing
    stays done.  An operation is given by what it returns or throws and by
    the calls or events it caused. *)
Definition safelyExecute {A E} (operation : outcome A * list E) : list E :=
  snd operation.

Section Passes.

(** ECMAScript's [Number] applied to a string, rounding included. *)
Variable Number : string -> JsNumber.

(** The static registry [contractMap], in the order [for ... in] visits it. *)
Variable contractMap : list (string * ContractEntry).

(** *** Token pass *)

(** [getAssetContractBalancesInSingleCall]: the balance map it resolves to
    (in iteration order), or a rejection. *)
Variable getAssetContractBalancesInSingleCall :
  string -> list string -> outcome (list (string * Z)).

(** [config.tokens.filter((token) => token.address)] *)
Definition tokensAddresses (this : Detector) : list Token :=
  List.filter (fun token => truthy (token_address token)) (tokens (config this)).

(** The first loop of [detectTokens]. *)
Definition tokensToDetect (this : Detector) : list string :=
  List.map fst
    (List.filter
       (fun '(address, contract) =>
          erc20 contract && negb (in_array address (tokensAddresses this)))
       contractMap).

(** The lookup in the token ignore-list made for one fetched address. *)
Definition ignoredToken (this : Detector) (tokenAddress : string) : option Token :=
  if (0 <? List.length (ignoredTokens (assetsState this)))%nat then
    List.find
      (fun token => String.eqb (token_address token) (toChecksumAddress tokenAddress))
      (ignoredTokens (assetsState this))
  else None.

(** The loop over the keys of [balances]; reading [decimals] of a contract
    the registry does not have throws. *)
Fixpoint stageTokens (this : Detector) (keys : list string) (tokensToAdd : list Token)
  : outcome (list Token) :=
  match keys with
  | [] => Returned tokensToAdd
  | tokenAddress :: rest =>
      match ignoredToken this tokenAddress with
      | Some _ => stageTokens this rest tokensToAdd
      | None =>
          match get contractMap tokenAddress with
          | None => Threw
          | Some contract =>
              stageTokens this rest
                (tokensToAdd ++
                 [ {| token_address := tokenAddress;
                      token_decimals := decimals contract;
                      token_symbol := symbol contract;
                      token_balanceError := ErrorUnset |} ])
          end
      end
  end.

(** The callback [detectTokens] gives to [safelyExecute]; the ignore-list is
    read once the balances are there, on the controller as it then is. *)
Definition stageAndAdd (resumed : Detector) (selectedAddress : string)
  (tokensToDetect : list string) : outcome unit * list StoreCall :=
  match getAssetContractBalancesInSingleCall selectedAddress tokensToDetect with
  | Threw => (Threw, [])
  | Returned balances =>
      match stageTokens resumed (List.map fst balances) [] with
      | Threw => (Threw, [])
      | Returned tokensToAdd =>
          (Returned tt,
           if (0 <? List.length tokensToAdd)%nat then [AddTokens tokensToAdd] else [])
      end
  end.

(** [detectTokens]: the calls it issues on the asset store. *)
Definition detectTokens (this resumed : Detector) : list StoreCall :=
  if negb (isMainnet this) then []
  else
    let tokensToDetect := tokensToDetect this in
    let selectedAddress := selectedAddress (config this) in
    if negb (truthy selectedAddress) then []
    else safelyExecute (stageAndAdd resumed selectedAddress tokensToDetect).

(** *** Collectible pass *)

(** How the request to the marketplace ends. *)
Inductive FetchResult : Type :=
| FetchThrew
| BodyThrew
| Body (assets : option (list ApiCollectibleResponse)).

(** [timeoutFetch] on the request's address and its API key header. *)
Variable timeoutFetch : string -> option string -> FetchResult.
Variable getOpenSeaApiKey : string.

(** Whether the promise of [addCollectible] is fulfilled (or rejected). *)
Variable addCollectible : string -> JsNumber -> CollectibleInformation -> bool -> bool.

Definition getOwnerCollectiblesApi (address : string) : string :=
  String.append "https://api.opensea.io/api/v1/assets?owner="
    (String.append address "&limit=300").

(** [getOwnerCollectibles]: a request that throws gives the empty list;
    reading the body is outside the [try]. *)
Definition ownershipRequest (this : Detector) : FetchResult :=
  let api := getOwnerCollectiblesApi (selectedAddress (config this)) in
  let openSeaApiKey := getOpenSeaApiKey in
  timeoutFetch api (if truthy openSeaApiKey then Some openSeaApiKey else None).

Definition getOwnerCollectibles (this : Detector)
  : outcome (option (list ApiCollectibleResponse)) :=
  match ownershipRequest this with
  | FetchThrew => Returned (Some [])
  | BodyThrew => Threw
  | Body assets => Returned assets
  end.

(** The lookup in the collectible ignore-list made for one reported item. *)
Definition ignoredCollectible (this : Detector) (collectible : ApiCollectibleResponse)
  : option Collectible :=
  if (0 <? List.length (ignoredCollectibles (assetsState this)))%nat then
    List.find
      (fun c => String.eqb (address c) (toChecksumAddress (asset_address collectible))
                && strict_equal (tokenId c) (Number (token_id collectible)))
      (ignoredCollectibles (assetsState this))
  else None.

(** The assignment that ends the callback: the reported pair is struck from
    [collectiblesToRemove]. *)
Definition reported (collectible : ApiCollectibleResponse) (c : Collectible) : bool :=
  strict_equal (tokenId c) (Number (token_id collectible))
  && String.eqb (address c) (toChecksumAddress (asset_address collectible)).

Definition strike (collectible : ApiCollectibleResponse)
  (collectiblesToRemove : list Collectible) : list Collectible :=
  List.filter (fun c => negb (reported collectible c)) collectiblesToRemove.

(** What can be observed of a pass: the calls on the store, and the moment
    the promise of the [addCollectible] call made for item [i] settles. *)
Inductive Event : Type :=
| Call (c : StoreCall)
| AddSettled (i : nat) (fulfilled : bool).

Definition addCall (collectible : ApiCollectibleResponse) : StoreCall :=
  AddCollectible (asset_address collectible) (Number (token_id collectible))
    {| info_description := api_description collectible;
       info_image := image_original_url collectible;
       info_name := api_name collectible |}
    true.

Definition removeCall (c : Collectible) : Event :=
  Call (RemoveCollectible (address c) (tokenId c)).

Definition addFulfilled (collectible : ApiCollectibleResponse) : bool :=
  addCollectible (asset_address collectible) (Number (token_id collectible))
    {| info_description := api_description collectible;
       info_image := image_original_url collectible;
       info_name := api_name collectible |}
    true.

(** The variables the callbacks share while the pass runs, and the callbacks
    suspended at their [await]. *)
Record PassState : Type := mkPassState {
  collectiblesToRemove : list Collectible;
  awaiting : list (nat * ApiCollectibleResponse);
  events : list Event
}.

(** [apiCollectibles.map(async ...)] runs each callback up to its first
    [await]: an ignored item goes straight to the final assignment, another
    one issues its [addCollectible] call and is suspended.  The ignore-list
    is read on the controller as it is once the answer has arrived. *)
Definition startCallback (resumed : Detector) (ps : PassState)
  (item : nat * ApiCollectibleResponse) : PassState :=
  let collectible := snd item in
  match ignoredCollectible resumed collectible with
  | Some _ =>
      {| collectiblesToRemove := strike collectible (collectiblesToRemove ps);
         awaiting := awaiting ps;
         events := events ps |}
  | None =>
      {| collectiblesToRemove := collectiblesToRemove ps;
         awaiting := awaiting ps ++ [item];
         events := events ps ++ [Call (addCall collectible)] |}
  end.

Definition indexed {A} (l : list A) : list (nat * A) :=
  combine (seq 0 (List.length l)) l.

(** [collectiblesToRemove] starts as the collectibles the controller holds
    when the pass starts, before the request is made. *)
Definition startCallbacks (this resumed : Detector)
  (apiCollectibles : list ApiCollectibleResponse) : PassState :=
  fold_left (startCallback resumed) (indexed apiCollectibles)
    {| collectiblesToRemove := collectibles (assetsState this);
       awaiting := [];
       events := [] |}.

Definition remove_nth {A} (k : nat) (l : list A) : list A :=
  firstn k l ++ skipn (S k) l.

(** [await Promise.all(...)]: the suspended callbacks resume one at a time,
    in the order their promises settle.  That order is the event loop's
    choice: [picks] says which of the callbacks still suspended settles next
    (its position, modulo their number).  A fulfilled callback makes the
    final assignment; a rejected one rejects [Promise.all], which ends the
    pass inside [safelyExecute] with no list to remove. *)
Fixpoint settle (fuel : nat) (picks : list nat) (ps : PassState)
  : outcome (list Collectible) * list Event :=
  match fuel with
  | O => (Returned (collectiblesToRemove ps), events ps)
  | S fuel' =>
      match awaiting ps with
      | [] => (Returned (collectiblesToRemove ps), events ps)
      | first :: _ =>
          let k := (hd 0%nat picks mod List.length (awaiting ps))%nat in
          let item := nth k (awaiting ps) first in
          if addFulfilled (snd item) then
            settle fuel' (tl picks)
              {| collectiblesToRemove := strike (snd item) (collectiblesToRemove ps);
                 awaiting := remove_nth k (awaiting ps);
                 events := events ps ++ [AddSettled (fst item) true] |}
          else (Threw, events ps ++ [AddSettled (fst item) false])
      end
  end.

(** The callback given to [safelyExecute] in [detectCollectibles], up to the
    end of [await Promise.all]: the final [collectiblesToRemove], if that
    point is reached, and the events so far. *)
Definition reconcile (this resumed : Detector) (picks : list nat)
  : outcome (list Collectible) * list Event :=
  match getOwnerCollectibles this with
  | Threw => (Threw, [])
  | Returned None => (Threw, [])
  | Returned (Some apiCollectibles) =>
      let ps := startCallbacks this resumed apiCollectibles in
      settle (List.length (awaiting ps)) picks ps
  end.

(** The callback [detectCollectibles] gives to [safelyExecute]: after
    [Promise.all], what is left in [collectiblesToRemove] is removed. *)
Definition reconcileAndRemove (this resumed : Detector) (picks : list nat)
  : outcome unit * list Event :=
  match reconcile this resumed picks with
  | (Threw, events) => (Threw, events)
  | (Returned collectiblesToRemove, events) =>
      (Returned tt, events ++ List.map removeCall collectiblesToRemove)
  end.

(** [detectCollectibles]: the events of one pass. *)
Definition detectCollectibles (this resumed : Detector) (picks : list nat) : list Event :=
  if negb (isMainnet this) then []
  else if negb (truthy (selectedAddress (config this))) then []
  else safelyExecute (reconcileAndRemove this resumed picks).

Definition calls (events : list Event) : list StoreCall :=
  flat_map (fun e => match e with Call c => [c] | AddSettled _ _ => [] end) events.

(** Vocabulary for the statements about a pass. *)

Definition isIgnored (this : Detector) (collectible : ApiCollectibleResponse) : bool :=
  match ignoredCollectible this collectible with
  | Some _ => true
  | None => false
  end.

(** Some item of the answer matches the stored collectible [c]. *)
Definition reportedBy (items : list ApiCollectibleResponse) (c : Collectible) : bool :=
  existsb (fun item => reported item c) items.

(** The items of the answer for which [addCollectible] is called, with their
    positions in the answer. *)
Definition pending (this : Detector) (apiCollectibles : list ApiCollectibleResponse)
  : list (nat * ApiCollectibleResponse) :=
  List.filter (fun item => negb (isIgnored this (snd item))) (indexed apiCollectibles).

(** The gates of a pass: mainnet, not disabled, an account selected. *)
Definition gatesOpen (this : Detector) : bool :=
  isMainnet this && truthy (selectedAddress (config this)).

Definition removalOf (c : Collectible) : StoreCall :=
  RemoveCollectible (address c) (tokenId c).

Definition addCalls (items : list (nat * ApiCollectibleResponse)) : list Event :=
  List.map (fun item => Call (addCall (snd item))) items.

Definition settlements (items : list (nat * ApiCollectibleResponse)) : list Event :=
  List.map (fun item => AddSettled (fst item) true) items.

End Passes.

(* ===================================================================== *)
(** ** AssetsDetectionController: polling *)

(** The controller with its timer: [handle] is the timer last armed, timers
    are numbered in the order [setTimeout] creates them. *)
Record Controller : Type := mkController {
  detector : Detector;
  handle : option nat;
  nextTimer : nat
}.

(** What the scheduling code does to the outside: timers, and the two passes
    it calls.  [detectAssets] calls the passes without awaiting them, so a
    pass is started where its effect stands and goes on by itself. *)
Inductive Effect : Type :=
| ClearTimeout (h : nat)
| DetectTokens
| DetectCollectibles
| SetTimeout (h : nat) (delay : Z).

(** Modelled from the spec: [configure] of BaseController, which is not among
    the sources, is the mutation of the DetectionConfig by the given fields;
    one setter per field the controller configures. *)
Definition configure_interval (i : Z) (this : Detector) : Detector :=
  {| config := {| interval := i;
                  networkType := networkType (config this);
                  selectedAddress := selectedAddress (config this);
                  tokens := tokens (config this) |};
     disabled := disabled this;
     assetsState := assetsState this |}.

Definition configure_selectedAddress (a : string) (this : Detector) : Detector :=
  {| config := {| interval := interval (config this);
                  networkType := networkType (config this);
                  selectedAddress := a;
                  tokens := tokens (config this) |};
     disabled := disabled this;
     assetsState := assetsState this |}.

Definition configure_networkType (n : string) (this : Detector) : Detector :=
  {| config := {| interval := interval (config this);
                  networkType := n;
                  selectedAddress := selectedAddress (config this);
                  tokens := tokens (config this) |};
     disabled := disabled this;
     assetsState := assetsState this |}.

Definition configure_tokens (ts : list Token) (this : Detector) : Detector :=
  {| config := {| interval := interval (config this);
                  networkType := networkType (config this);
                  selectedAddress := selectedAddress (config this);
                  tokens := ts |};
     disabled := disabled this;
     assetsState := assetsState this |}.

(** [detectAssets] *)
Definition detectAssets (this : Detector) : list Effect :=
  if negb (isMainnet this) then [] else [DetectTokens; DetectCollectibles].

(** [poll(interval)]: an interval that is given and not zero is configured,
    the timer in [handle] is cleared, [detectAssets] is awaited, a timer is
    armed for [config.interval]. *)
Definition poll (i : option Z) (c : Controller) : Controller * list Effect :=
  let this :=
    match i with
    | Some i => if i =? 0 then detector c else configure_interval i (detector c)
    | None => detector c
    end in
  let cleared := match handle c with Some h => [ClearTimeout h] | None => [] end in
  let h := nextTimer c in
  ({| detector := this; handle := Some h; nextTimer := S h |},
   cleared ++ detectAssets this ++ [SetTimeout h (interval (config this))]).

(** The listener given to [onPreferencesStateChange]. *)
Definition onPreferencesStateChange (selected : string) (c : Controller)
  : Controller * list Effect :=
  let actualSelectedAddress := selectedAddress (config (detector c)) in
  if negb (String.eqb selected actualSelectedAddress) then
    let this := configure_selectedAddress selected (detector c) in
    ({| detector := this; handle := handle c; nextTimer := nextTimer c |},
     detectAssets this)
  else (c, []).

(** The listener given to [onNetworkStateChange]. *)
Definition onNetworkStateChange (providerType : string) (c : Controller)
  : Controller * list Effect :=
  ({| detector := configure_networkType providerType (detector c);
      handle := handle c; nextTimer := nextTimer c |}, []).

(** The listener given to [onAssetStateChange]. *)
Definition onAssetStateChange (state : AssetsState) (ts : list Token) (c : Controller)
  : Controller * list Effect :=
  let this := configure_tokens ts (detector c) in
  ({| detector := {| config := config this; disabled := disabled this;
                     assetsState := state |};
      handle := handle c; nextTimer := nextTimer c |}, []).

(** What the controller reacts to once constructed; the constructor itself
    ends in [poll()] with no timer armed yet. *)
Inductive Input : Type :=
| TimerFired
| PreferencesStateChange (selected : string)
| NetworkStateChange (providerType : string)
| AssetStateChange (state : AssetsState) (ts : list Token).

Definition react (c : Controller) (input : Input) : Controller * list Effect :=
  match input with
  | TimerFired => poll (Some (interval (config (detector c)))) c
  | PreferencesStateChange selected => onPreferencesStateChange selected c
  | NetworkStateChange providerType => onNetworkStateChange providerType c
  | AssetStateChange state ts => onAssetStateChange state ts c
  end.

Definition start (this : Detector) : Controller * list Effect :=
  poll None {| detector := this; handle := None; nextTimer := 0%nat |}.

(** The controller after a sequence of inputs, and all the effects. *)
Fixpoint run (c : Controller) (inputs : list Input) : Controller * list Effect :=
  match inputs with
  | [] => (c, [])
  | input :: rest =>
      let '(c1, effects1) := react c input in
      let '(c2, effects2) := run c1 rest in
      (c2, effects1 ++ effects2)
  end.

Definition is_SetTimeout (e : Effect) : bool :=
  match e with
  | SetTimeout _ _ => true
  | _ => false
  end.

Definition is_TimerFired (input : Input) : bool :=
  match input with
  | TimerFired => true
  | _ => false
  end.

Definition is_timer_effect (e : Effect) : bool :=
  match e with
  | ClearTimeout _ | SetTimeout _ _ => true
  | DetectTokens | DetectCollectibles => false
  end.

(* ===================================================================== *)
(** ** TokenBalancesController *)

(** A value of [contractBalances]: a [BN], or the number [0] stored when the
    balance could not be fetched. *)
Inductive Balance : Type :=
| BN (v : Z)
| NumberZero.

(** How the promise of [getBalanceOfAssetContract] settles. *)
Inductive BalanceResult : Type :=
| Fulfilled (balance : Z)
| Rejected (error : string).

Record TokenBalances : Type := mkTokenBalances {
  tb_disabled : bool;
  tb_tokens : list Token;
  tb_selectedAddress : string;
  contractBalances : gmap string Balance
}.

Definition set_balanceError (e : BalanceError) (t : Token) : Token :=
  {| token_address := token_address t;
     token_decimals := token_decimals t;
     token_symbol := token_symbol t;
     token_balanceError := e |}.

Section Balances.

Variable getBalanceOfAssetContract : string -> string -> BalanceResult.

(** The loop of [updateBalances] from token [i] on: it writes
    [newContractBalances] and the [balanceError] of the tokens of the
    configuration, which it returns as they are after the loop. *)
Fixpoint updateLoop (selected : string) (tokens : list Token)
  (newContractBalances : gmap string Balance) : list Token * gmap string Balance :=
  match tokens with
  | [] => ([], newContractBalances)
  | t :: rest =>
      let address := token_address t in
      match getBalanceOfAssetContract address selected with
      | Fulfilled balance =>
          let '(rest', m) :=
            updateLoop selected rest (<[address := BN balance]> newContractBalances) in
          (set_balanceError ErrorNull t :: rest', m)
      | Rejected error =>
          let '(rest', m) :=
            updateLoop selected rest (<[address := NumberZero]> newContractBalances) in
          (set_balanceError (ErrorThrown error) t :: rest', m)
      end
  end.

(** What the loop records for a token address: the entry of
    [newContractBalances] and the token's [balanceError]. *)
Definition recordedBalance (selected address : string) : Balance :=
  match getBalanceOfAssetContract address selected with
  | Fulfilled balance => BN balance
  | Rejected _ => NumberZero
  end.

Definition recordedError (selected address : string) : BalanceError :=
  match getBalanceOfAssetContract address selected with
  | Fulfilled _ => ErrorNull
  | Rejected error => ErrorThrown error
  end.

(** [updateBalances]; the final [update] replaces [contractBalances]. *)
Definition updateBalances (this : TokenBalances) : TokenBalances :=
  if tb_disabled this then this
  else
    let '(tokens', newContractBalances) :=
      updateLoop (tb_selectedAddress this) (tb_tokens this) ∅ in
    {| tb_disabled := tb_disabled this;
       tb_tokens := tokens';
       tb_selectedAddress := tb_selectedAddress this;
       contractBalances := newContractBalances |}.

End Balances.

(* ===================================================================== *)
(** ** ComposableController *)

Section Composition.

(** What a child controller publishes as its state. *)
Variable ChildState : Type.

Record Child : Type := mkChild {
  child_name : string;
  child_state : ChildState
}.

Record Composable : Type := mkComposable {
  controllers : list Child;
  state : gmap string ChildState
}.

(** [Object.entries] of an array: its elements under their indices. *)
Definition entries {A} (arr : list A) : list (string * A) :=
  List.map (fun '(i, x) => (string_of_index i, x)) (indexed arr).

(** [state[name] = controller.state] in the constructor, and the spread
    [{ ...flatState, [name]: controller.state }] of [flatState]: the entry
    under [name] is set. *)
Definition assign (state : gmap string ChildState) (entry : string * Child)
  : gmap string ChildState :=
  let '(name, controller) := entry in <[name := child_state controller]> state.

(** The state handed to the base constructor: a [reduce] over
    [Object.entries(controllers)]. *)
Definition initialState (children : list Child) : gmap string ChildState :=
  fold_left assign (entries children) ∅.

(** Modelled from the spec: BaseController is not among the sources.  Its
    constructor and [initialize] make the given state the controller's state;
    [update] merges the given entries into the state, replacing an entry
    under the same key; a subscriber of a child receives each state the child
    publishes. *)
Definition update (key : string) (s : ChildState) (this : Composable) : Composable :=
  {| controllers := controllers this; state := <[key := s]> (state this) |}.

Definition construct (children : list Child) : Composable :=
  {| controllers := children; state := initialState children |}.

(** Child [i] publishes the state [s]: it becomes the child's state, and the
    listener subscribed in the constructor runs [update({ [name]: state })]
    with the [name] read off the child. *)
Definition publish (i : nat) (s : ChildState) (this : Composable) : Composable :=
  match controllers this !! i with
  | None => this
  | Some controller =>
      update (child_name controller) s
        {| controllers :=
             <[i := {| child_name := child_name controller; child_state := s |}]>
               (controllers this);
           state := state this |}
  end.

(** The entries of an array numbered from [n] on; [entries] is
    [entriesFrom 0]. *)
Definition entriesFrom (n : nat) (l : list Child) : list (string * Child) :=
  List.map (fun '(i, x) => (string_of_index i, x)) (combine (seq n (List.length l)) l).

(** The getter [flatState]. *)
Definition flatState (this : Composable) : gmap string ChildState :=
  fold_left assign (entries (controllers this)) ∅.

End Composition.

(* ===================================================================== *)
(** ** Further vocabulary for the passes and the polling *)

(** The record the token pass stages for a key of the balance map. *)
Definition stagedToken (tokenAddress : string) (contract : ContractEntry) : Token :=
  {| token_address := tokenAddress;
     token_decimals := decimals contract;
     token_symbol := symbol contract;
     token_balanceError := ErrorUnset |}.

Definition isIgnoredToken (this : Detector) (tokenAddress : string) : bool :=
  match ignoredToken this tokenAddress with
  | Some _ => true
  | None => false
  end.

(** The timers armed and not cleared once [effects] have taken place, given
    those pending before. *)
Definition pendingAfter (pending : list nat) (effects : list Effect) : list nat :=
  fold_left
    (fun pending e =>
       match e with
       | SetTimeout h _ => pending ++ [h]
       | ClearTimeout h => List.filter (fun k => negb (Nat.eqb k h)) pending
       | DetectTokens | DetectCollectibles => pending
       end)
    effects pending.

Definition switchesToMainnet (input : Input) : bool :=
  match input with
  | NetworkStateChange providerType => String.eqb providerType MAINNET
  | _ => false
  end.

(* ===================================================================== *)
(** ** TokenBalancesController: the listeners of the constructor *)

Section BalanceListeners.

Variable getBalanceOfAssetContract : string -> string -> BalanceResult.

(** The listener given to [onAssetStateChange]: the tokens are configured
    and the balances updated. *)
Definition balancesOnAssetStateChange (ts : list Token) (this : TokenBalances)
  : TokenBalances :=
  updateBalances getBalanceOfAssetContract
    {| tb_disabled := tb_disabled this;
       tb_tokens := ts;
       tb_selectedAddress := tb_selectedAddress this;
       contractBalances := contractBalances this |}.

(** The listener given to [onPreferencesStateChange]: the selected address
    is stored, nothing else. *)
Definition balancesOnPreferencesStateChange (selected : string) (this : TokenBalances)
  : TokenBalances :=
  {| tb_disabled := tb_disabled this;
     tb_tokens := tb_tokens this;
     tb_selectedAddress := selected;
     contractBalances := contractBalances this |}.

End BalanceListeners.

(* ===================================================================== *)
(** ** ComposableController: sequences of notifications *)

Section CompositionRuns.

Variable ChildState : Type.

(** The composer after the notifications [published], each the position of a
    child and the state it publishes, oldest first. *)
Definition publishAll (published : list (nat * ChildState))
  (this : Composable ChildState) : Composable ChildState :=
  fold_left (fun this '(i, s) => publish ChildState i s this) published this.

(** The last state the child at position [i] published, if any. *)
Definition lastPublishedBy (i : nat) (published : list (nat * ChildState))
  : option ChildState :=
  fold_left (fun last '(j, s) => if Nat.eqb j i then Some s else last) published None.

(** The last state published by a child named [key], if any. *)
Definition lastPublishedUnder (children : list (Child ChildState)) (key : string)
  (published : list (nat * ChildState)) : option ChildState :=
  fold_left
    (fun last '(j, s) =>
       match children !! j with
       | Some controller => if String.eqb (child_name _ controller) key then Some s else last
       | None => last
       end)
    published None.

End CompositionRuns.

(* ===================================================================== *)
(** ** NotificationController

    The state of the controller is its [notifications], a map from ids to
    notifications that is only read and written by id: a [gmap].  The
    notifications of the configuration and the ids handed to [updateViewed]
    are visited in order: lists in iteration order.  Ids are integers. *)

Module Notifications.

Record Notification : Type := mkNotification {
  id : Z;
  title : string;
  description : string;
  date : string;
  image : option string;
  actionText : option string
}.

(** A notification of the state: a notification with the flag [isShown]. *)
Record StateNotification : Type := mkStateNotification {
  notification : Notification;
  isShown : bool
}.

(** [{ ...notification, isShown: false }] *)
Definition unseen (n : Notification) : StateNotification :=
  {| notification := n; isShown := false |}.

(** [_addNotifications]: a new map is filled from [Object.values] of the
    notifications of the configuration, keyed by each notification's own id;
    the notification the state has under that id is taken over, another one
    enters as not shown.  The new map becomes the state's [notifications]. *)
Definition _addNotifications (allNotifications : list (Z * Notification))
  (notifications : gmap Z StateNotification) : gmap Z StateNotification :=
  fold_left
    (fun newNotifications n =>
       <[id n := match notifications !! id n with
                 | Some known => known
                 | None => unseen n
                 end]> newNotifications)
    (List.map snd allNotifications) ∅.

(** The constructor: the state given, or the default state with no
    notification, then [_addNotifications]. *)
Definition construct (allNotifications : list (Z * Notification))
  (state : option (gmap Z StateNotification)) : gmap Z StateNotification :=
  _addNotifications allNotifications
    match state with
    | Some notifications => notifications
    | None => ∅
    end.

(** [viewedIds[id]] for a key [id] of [viewedIds]. *)
Fixpoint flagOf (viewedIds : list (Z * bool)) (key : Z) : bool :=
  match viewedIds with
  | [] => false
  | (k, v) :: rest => if k =? key then v else flagOf rest key
  end.

Definition setShown (v : bool) (n : StateNotification) : StateNotification :=
  {| notification := notification n; isShown := v |}.

(** The loop of [updateViewed] over [Object.keys(viewedIds)], writing into
    the state's own map: assigning [isShown] on the notification of an id
    the state does not have throws. *)
Fixpoint viewLoop (viewedIds : list (Z * bool)) (keys : list Z)
  (stateNotifications : gmap Z StateNotification)
  : outcome unit * gmap Z StateNotification :=
  match keys with
  | [] => (Returned tt, stateNotifications)
  | key :: rest =>
      match stateNotifications !! key with
      | None => (Threw, stateNotifications)
      | Some n =>
          viewLoop viewedIds rest
            (<[key := setShown (flagOf viewedIds key) n]> stateNotifications)
      end
  end.

(** [updateViewed]: what the call gives, and the state's notifications after
    it; the final [update] publishes the map the loop has written. *)
Definition updateViewed (viewedIds : list (Z * bool))
  (notifications : gmap Z StateNotification)
  : outcome unit * gmap Z StateNotification :=
  viewLoop viewedIds (List.map fst viewedIds) notifications.

(** The ids of the notifications of the configuration. *)
Definition announced (allNotifications : list (Z * Notification)) : list Z :=
  List.map (fun entry => id (snd entry)) allNotifications.

(** The last notification of the configuration that bears the id [key]. *)
Definition lastWithId (allNotifications : list (Z * Notification)) (key : Z)
  : option Notification :=
  fold_left (fun last n => if id n =? key then Some n else last)
    (List.map snd allNotifications) None.

End Notifications.

(* ===================================================================== *)
(** ** Concrete data for the examples *)

(** [Number] for the examples.  It is [Number] on the strings of decimal
    digits up to 2^53, where every integer is a double, and on the strings
    that hold a letter other than those of a numeric literal ([x], [e], [o],
    [b], [Infinity]), where [Number] gives [NaN]; the examples use it on
    such strings only.  It is not [Number] elsewhere: on hexadecimal,
    exponent or fraction literals, on strings with white space, or above
    2^53. *)
Definition is_digit (c : ascii) : bool :=
  let n := N_of_ascii c in ((48 <=? n) && (n <=? 57))%N.

Definition NumberOfDigits (s : string) : JsNumber :=
  let cs := list_ascii_of_string s in
  if forallb is_digit cs then
    JsNum (fold_left (fun acc c => 10 * acc + (Z.of_N (N_of_ascii c) - 48)) cs 0)
  else JsNaN.

Definition lowerAddress : string := "0x5aaeb6053f3e94c9b9a09f33669435e7ef1beaed".
Definition checksumAddress : string := "0x5aAeb6053F3E94C9b9A09f33669435E7Ef1BeAed".
Definition ownerAddress : string := "0xfB6916095ca1df60bB79Ce92cE3Ea74c37c5d359".

(** The collectible [(checksumAddress, 5)] as the store holds it, and the
    marketplace's entry for it, with the address in lower case. *)
Definition kitty : Collectible :=
  {| address := checksumAddress; tokenId := JsNum 5;
     name := "Kitty"; image := "kitty.png"; description := "A kitty" |}.

Definition kittyReported : ApiCollectibleResponse :=
  {| token_id := "5"; image_original_url := "kitty.png"; api_name := "Kitty";
     api_description := "A kitty"; asset_address := lowerAddress |}.

(** Another token of the same contract, as the marketplace reports it. *)
Definition puppyReported : ApiCollectibleResponse :=
  {| token_id := "6"; image_original_url := "puppy.png"; api_name := "Puppy";
     api_description := "A puppy"; asset_address := lowerAddress |}.

Definition puppyInformation : CollectibleInformation :=
  {| info_description := "A puppy"; info_image := "puppy.png"; info_name := "Puppy" |}.

Definition kittyInformation : CollectibleInformation :=
  {| info_description := "A kitty"; info_image := "kitty.png"; info_name := "Kitty" |}.

Definition token (a : string) : Token :=
  {| token_address := a; token_decimals := 18; token_symbol := "TKN";
     token_balanceError := ErrorUnset |}.

Definition registry : list (string * ContractEntry) :=
  [ (checksumAddress, {| erc20 := true; symbol := "TKN"; decimals := 18 |}) ].

(** A controller on mainnet, enabled, with an account selected. *)
Definition detectorWith (ts : list Token) (state : AssetsState) : Detector :=
  {| config := {| interval := DEFAULT_INTERVAL; networkType := MAINNET;
                  selectedAddress := ownerAddress; tokens := ts |};
     disabled := false;
     assetsState := state |}.

Definition answers (assets : list ApiCollectibleResponse)
  : string -> option string -> FetchResult :=
  fun _ _ => Body (Some assets).

Definition requestFails : string -> option string -> FetchResult :=
  fun _ _ => FetchThrew.

Definition alwaysFulfilled
  : string -> JsNumber -> CollectibleInformation -> bool -> bool :=
  fun _ _ _ _ => true.

(** A balance fetcher that resolves to the given map. *)
Definition balancesOf (balances : list (string * Z))
  : string -> list string -> outcome (list (string * Z)) :=
  fun _ _ => Returned balances.

Definition alwaysRejected
  : string -> JsNumber -> CollectibleInformation -> bool -> bool :=
  fun _ _ _ _ => false.

(** A balance fetcher that reports the same balance for every candidate. *)
Definition balancesAll (balance : Z) : string -> list string -> outcome (list (string * Z)) :=
  fun _ tokensToDetect => Returned (List.map (fun a => (a, balance)) tokensToDetect).

Definition tracking (tracked ignored : list Collectible) : Detector :=
  detectorWith [] {| collectibles := tracked; ignoredCollectibles := ignored;
                     ignoredTokens := [] |}.

Definition ignoringTokens (ts ignored : list Token) : Detector :=
  detectorWith ts {| collectibles := []; ignoredCollectibles := [];
                     ignoredTokens := ignored |}.

(** A fetcher that throws for the token at [lowerAddress] and gives the
    balance 7 for any other. *)
Definition failingOnce (tokenAddress _ : string) : BalanceResult :=
  if String.eqb tokenAddress lowerAddress then Rejected "timeout" else Fulfilled 7.

Definition twoTokens : TokenBalances :=
  {| tb_disabled := false;
     tb_tokens := [token lowerAddress; token ownerAddress];
     tb_selectedAddress := ownerAddress;
     contractBalances := ∅ |}.

Definition networkChild : Child string :=
  {| child_name := "NetworkController"; child_state := "mainnet" |}.

Definition preferencesChild : Child string :=
  {| child_name := "PreferencesController"; child_state := "0xfB69" |}.

(** A collectible pass on a controller whose asset state does not change
    while the pass runs, every [addCollectible] promise being fulfilled, in
    the order of the calls. *)
Definition collectiblePassOn (fetch : string -> option string -> FetchResult)
  (this : Detector) : list Event :=
  detectCollectibles NumberOfDigits fetch "" alwaysFulfilled this this [].

(** A token pass over [registry] on such a controller, the fetcher reporting
    [balance] for every candidate. *)
Definition tokenPassOn (balance : Z) (this : Detector) : list StoreCall :=
  detectTokens registry (balancesAll balance) this this.

(** An item the marketplace reports with a token id that is no numeric
    literal ([Number] gives [NaN] for it), and what the store holds once it
    has been added as it is. *)
Definition oddReported : ApiCollectibleResponse :=
  {| token_id := "forty-two"; image_original_url := "odd.png"; api_name := "Odd";
     api_description := "An odd one"; asset_address := lowerAddress |}.

Definition oddInformation : CollectibleInformation :=
  {| info_description := "An odd one"; info_image := "odd.png"; info_name := "Odd" |}.

Definition oddStored : Collectible :=
  {| address := checksumAddress; tokenId := JsNaN;
     name := "Odd"; image := "odd.png"; description := "An odd one" |}.

(** The stored address in upper case. *)
Definition upperAddress : string := "0x5AAEB6053F3E94C9B9A09F33669435E7EF1BEAED".

(** A controller whose balances were fetched before the token at
    [ownerAddress] was dropped from the configuration. *)
Definition staleBalances : TokenBalances :=
  {| tb_disabled := false;
     tb_tokens := [token lowerAddress; token ownerAddress];
     tb_selectedAddress := ownerAddress;
     contractBalances := {[ lowerAddress := BN 1; ownerAddress := BN 2 ]} |}.

(** Two announcements of the configuration, and a state that has seen the
    first and still holds one that is no longer announced. *)
Definition welcome : Notifications.Notification :=
  Notifications.mkNotification 1 "Welcome" "Hello" "2021-03-17" None None.

Definition release : Notifications.Notification :=
  Notifications.mkNotification 2 "Release" "What is new" "2021-04-01" None (Some "Read").

Definition retired : Notifications.Notification :=
  Notifications.mkNotification 7 "Retired" "No longer announced" "2020-01-01" None None.

Definition announcements : list (Z * Notifications.Notification) :=
  [(1, welcome); (2, release)].

Definition seenBefore : gmap Z Notifications.StateNotification :=
  {[ 1 := Notifications.mkStateNotification welcome true;
     7 := Notifications.mkStateNotification retired true ]}.

(** The calls of a pass applied to a store, one after the other. *)
Definition runCalls {Store} (applyCall : StoreCall -> Store -> Store)
  (cs : list StoreCall) (store : Store) : Store :=
  fold_left (fun store c => applyCall c store) cs store.

(** A store of tokens whose [addTokens] appends the tokens not yet there. *)
Definition listStore_apply (c : StoreCall) (store : list Token) : list Token :=
  match c with
  | AddTokens l =>
      store ++
      List.filter
        (fun t => negb (existsb (fun u => String.eqb (token_address u) (token_address t)) store))
        l
  | _ => store
  end.

(* ===================================================================== *)
(** ** Facts about checksum addresses *)

Example keccak256_empty :
  string_of_list_ascii (hex_of_bytes (Keccak.keccak256 [])) =
  "c5d2460186f7233c927e7db2dcc703c0e500b653ca82273b7bfad8045d85a470"%string.
Proof. vm_compute. reflexivity. Qed.

Example checksum_eip55_1 :
  toChecksumAddress "0x5aaeb6053f3e94c9b9a09f33669435e7ef1beaed" =
  "0x5aAeb6053F3E94C9b9A09f33669435E7Ef1BeAed"%string.
Proof. vm_compute. reflexivity. Qed.

Example checksum_eip55_2 :
  toChecksumAddress "0xFB6916095CA1DF60BB79CE92CE3EA74C37C5D359" =
  "0xfB6916095ca1df60bB79Ce92cE3Ea74c37c5d359"%string.
Proof. vm_compute. reflexivity. Qed.

Lemma toChecksumAddress_casing (a b : string) :
  toLowerCase (stripHexPrefix a) = toLowerCase (stripHexPrefix b) ->
  toChecksumAddress a = toChecksumAddress b.
Proof.
  intros Hcase. unfold toChecksumAddress. rewrite Hcase. reflexivity.
Qed.


(* ===================================================================== *)
(** ** Facts about lists *)

Lemma existsb_remove_nth {A} (f : A -> bool) (k : nat) (l : list A) (d : A) :
  (k < List.length l)%nat ->
  existsb f l = f (nth k l d) || existsb f (remove_nth k l).
Proof.
  revert k. induction l as [|x l IH]; intros k Hk; simpl in Hk; [lia|].
  destruct k as [|k]; simpl.
  - unfold remove_nth. simpl. reflexivity.
  - unfold remove_nth in *. simpl. rewrite (IH k) by lia.
    destruct (f x), (f (nth k l d)); reflexivity.
Qed.

Lemma remove_nth_length {A} (k : nat) (l : list A) :
  (k < List.length l)%nat -> List.length (remove_nth k l) = pred (List.length l).
Proof.
  revert k. induction l as [|x l IH]; intros k Hk; simpl in Hk; [lia|].
  destruct k as [|k]; unfold remove_nth in *; simpl.
  - rewrite drop_0. reflexivity.
  - rewrite (IH k) by lia. destruct l; simpl in *; lia.
Qed.

Lemma remove_nth_Permutation {A} (k : nat) (l : list A) (d : A) :
  (k < List.length l)%nat -> Permutation (nth k l d :: remove_nth k l) l.
Proof.
  revert k. induction l as [|x l IH]; intros k Hk; simpl in Hk; [lia|].
  destruct k as [|k]; unfold remove_nth in *; simpl.
  - rewrite drop_0. reflexivity.
  - rewrite perm_swap. apply perm_skip. apply IH. lia.
Qed.

Lemma filter_filter_andb {A} (f g : A -> bool) (l : list A) :
  List.filter f (List.filter g l) = List.filter (fun x => g x && f x) l.
Proof.
  induction l as [|x l IH]; simpl; [reflexivity|].
  destruct (g x); simpl; [destruct (f x)|]; rewrite IH; reflexivity.
Qed.

Lemma existsb_through_map {A B} (f : B -> bool) (g : A -> B) (l : list A) :
  existsb f (List.map g l) = existsb (fun x => f (g x)) l.
Proof.
  induction l as [|x l IH]; simpl; [reflexivity|]. rewrite IH. reflexivity.
Qed.

Lemma filter_all {A} (f : A -> bool) (l : list A) :
  (forall x, f x = true) -> List.filter f l = l.
Proof.
  intros Hf. induction l as [|x l IH]; simpl; [reflexivity|].
  rewrite Hf, IH. reflexivity.
Qed.

Lemma filter_none {A} (f : A -> bool) (l : list A) :
  (forall x, In x l -> f x = false) -> List.filter f l = [].
Proof.
  induction l as [|x l IH]; intros Hf; simpl; [reflexivity|].
  rewrite (Hf x) by (left; reflexivity). apply IH.
  intros y Hin. apply Hf. right. exact Hin.
Qed.

Lemma filter_ext_eq {A} (f g : A -> bool) (l : list A) :
  (forall x, f x = g x) -> List.filter f l = List.filter g l.
Proof.
  intros Hfg. induction l as [|x l IH]; simpl; [reflexivity|].
  rewrite Hfg, IH. reflexivity.
Qed.

(* ===================================================================== *)
(** ** Facts about the collectible pass *)

Section CollectibleFacts.

Variable Number : string -> JsNumber.
Variable timeoutFetch : string -> option string -> FetchResult.
Variable getOpenSeaApiKey : string.
Variable addCollectible : string -> JsNumber -> CollectibleInformation -> bool -> bool.

Local Abbreviation detect := (detectCollectibles Number timeoutFetch getOpenSeaApiKey addCollectible).
Local Abbreviation reconciled := (reconcile Number timeoutFetch getOpenSeaApiKey addCollectible).
Local Abbreviation settled := (settle Number addCollectible).
Local Abbreviation fulfilled := (addFulfilled Number addCollectible).

Local Abbreviation isIgnored := (isIgnored Number).
Local Abbreviation reportedBy := (reportedBy Number).
Local Abbreviation addCalls := (addCalls Number).
Local Abbreviation pending := (pending Number).

Lemma strike_reportedBy (item : ApiCollectibleResponse) (items : list ApiCollectibleResponse)
  (l : list Collectible) :
  strike Number item (List.filter (fun c => negb (reportedBy items c)) l) =
  List.filter (fun c => negb (reportedBy (items ++ [item]) c)) l.
Proof.
  unfold strike. rewrite filter_filter_andb. apply filter_ext_eq. intros c.
  unfold reportedBy. rewrite existsb_app. simpl.
  destruct (existsb _ items), (reported Number item c); reflexivity.
Qed.

(** The callbacks started on [items], from any state of the pass. *)
Lemma startCallback_fold (this : Detector) (items : list (nat * ApiCollectibleResponse))
  (ps : PassState) :
  let ps' := fold_left (startCallback Number this) items ps in
  collectiblesToRemove ps' =
    List.filter
      (fun c => negb (reportedBy (List.map snd (List.filter (fun it => isIgnored this (snd it)) items)) c))
      (collectiblesToRemove ps)
  /\ awaiting ps' = awaiting ps ++ List.filter (fun it => negb (isIgnored this (snd it))) items
  /\ events ps' =
       events ps ++ addCalls (List.filter (fun it => negb (isIgnored this (snd it))) items).
Proof.
  revert ps. induction items as [|item items IH]; intros ps; simpl.
  - repeat split; try (rewrite app_nil_r; reflexivity).
    symmetry. apply filter_all. reflexivity.
  - destruct (IH (startCallback Number this ps item)) as (Hrem & Hwait & Hev).
    rewrite Hrem, Hwait, Hev. clear IH Hrem Hwait Hev.
    unfold startCallback, isIgnored.
    destruct (ignoredCollectible Number this (snd item)) as [found|]; simpl.
    + repeat split.
      unfold strike. rewrite filter_filter_andb. apply filter_ext_eq. intros c.
      unfold reportedBy. simpl.
      destruct (reported Number (snd item) c); reflexivity.
    + rewrite <- !app_assoc. repeat split.
Qed.

(** Settling the suspended callbacks, whatever the order. *)
Lemma settle_spec (fuel : nat) :
  forall (picks : list nat) (ps : PassState),
    List.length (awaiting ps) = fuel ->
    exists (done : list (nat * ApiCollectibleResponse)) (rejection : list Event),
      snd (settled fuel picks ps) = events ps ++ settlements done ++ rejection
      /\ ((fst (settled fuel picks ps) =
             Returned (List.filter (fun c => negb (reportedBy (List.map snd (awaiting ps)) c))
                         (collectiblesToRemove ps))
           /\ Permutation done (awaiting ps) /\ rejection = [])
          \/ (fst (settled fuel picks ps) = Threw
              /\ exists item, In item (awaiting ps)
                              /\ fulfilled (snd item) = false
                              /\ rejection = [AddSettled (fst item) false])).
Proof.
  induction fuel as [|fuel IH]; intros picks ps Hlen.
  - exists [], []. destruct (awaiting ps) eqn:Hw; [|discriminate].
    simpl. rewrite app_nil_r. split; [reflexivity|]. left.
    split; [|split; [constructor | reflexivity]].
    f_equal. symmetry. apply filter_all. reflexivity.
  - simpl. destruct (awaiting ps) as [|first rest] eqn:Hw; [discriminate|].
    set (k := (hd 0%nat picks mod List.length (first :: rest))%nat).
    assert (Hk : (k < List.length (first :: rest))%nat).
    { apply Nat.mod_upper_bound. simpl. lia. }
    set (item := nth k (first :: rest) first) in *.
    destruct (fulfilled (snd item)) eqn:Hok.
    + match goal with
      | |- context [settled fuel (tl picks) ?p] => set (ps1 := p)
      end.
      destruct (IH (tl picks) ps1) as (done & rejection & Hev & Hres).
      { subst ps1. simpl. rewrite remove_nth_length by exact Hk. simpl in *. lia. }
      exists (item :: done), rejection. split.
      { rewrite Hev. subst ps1. simpl. rewrite <- app_assoc. reflexivity. }
      destruct Hres as [(Hret & Hperm & Hrej) | (Hthrew & it & Hin & Hno & Hrej)].
      * left. split; [|split; [|exact Hrej]].
        -- rewrite Hret. subst ps1. cbn [collectiblesToRemove awaiting].
           f_equal. unfold strike.
           rewrite filter_filter_andb. apply filter_ext_eq. intros c.
           unfold reportedBy. rewrite !existsb_through_map.
           rewrite (existsb_remove_nth _ k (first :: rest) first Hk).
           fold item.
           destruct (reported Number (snd item) c); reflexivity.
        -- rewrite Hperm. subst ps1. cbn [awaiting].
           apply (remove_nth_Permutation k (first :: rest) first Hk).
      * right. split; [exact Hthrew|]. exists it. repeat split; try assumption.
        subst ps1. simpl in Hin.
        eapply Permutation_in.
        -- apply (remove_nth_Permutation k (first :: rest) first Hk).
        -- right. exact Hin.
    + exists [], [AddSettled (fst item) false]. split; [reflexivity|].
      right. split; [reflexivity|]. exists item.
      split; [|split; [exact Hok | reflexivity]].
      apply (nth_In (first :: rest) first Hk).
Qed.

(** Every order of settlement is the event loop's to choose: whatever
    permutation of the suspended callbacks, some [picks] settles them in that
    order. *)
Lemma settle_any_order (order : list (nat * ApiCollectibleResponse)) :
  forall ps : PassState,
    Permutation order (awaiting ps) ->
    (forall item, In item order -> fulfilled (snd item) = true) ->
    exists picks,
      snd (settled (List.length order) picks ps) = events ps ++ settlements order.
Proof.
  induction order as [|x order IH]; intros ps Hperm Hall.
  - exists []. simpl. rewrite app_nil_r. reflexivity.
  - assert (Hin : In x (awaiting ps)).
    { eapply Permutation_in; [exact Hperm | left; reflexivity]. }
    destruct (In_nth _ _ x Hin) as (k & Hk & Hnth).
    destruct (awaiting ps) as [|first rest] eqn:Hw; [destruct Hin|].
    set (ps1 := {| collectiblesToRemove := strike Number (snd x) (collectiblesToRemove ps);
                   awaiting := remove_nth k (first :: rest);
                   events := events ps ++ [AddSettled (fst x) true] |}).
    destruct (IH ps1) as (picks & Hrun).
    { subst ps1. cbn [awaiting]. apply (Permutation_cons_inv (a := x)).
      rewrite Hperm. symmetry. rewrite <- Hnth at 1.
      apply (remove_nth_Permutation k (first :: rest) x Hk). }
    { intros item Hitem. apply Hall. right. exact Hitem. }
    exists (k :: picks). cbn [List.length settle]. rewrite Hw.
    cbn [hd tl]. rewrite (Nat.mod_small k _ Hk).
    rewrite (nth_indep (first :: rest) first x Hk), Hnth.
    rewrite (Hall x) by (left; reflexivity).
    fold ps1. rewrite Hrun. subst ps1. cbn [events]. simpl.
    rewrite <- app_assoc. reflexivity.
Qed.

Lemma indexed_snd {A} (l : list A) : List.map snd (indexed l) = l.
Proof.
  unfold indexed. generalize 0%nat. induction l as [|x l IH]; intros n; simpl.
  - reflexivity.
  - rewrite IH. reflexivity.
Qed.

Lemma filter_indexed {A} (p : A -> bool) (l : list A) :
  List.map snd (List.filter (fun it => p (snd it)) (indexed l)) = List.filter p l.
Proof.
  unfold indexed. generalize 0%nat. induction l as [|x l IH]; intros n; simpl.
  - reflexivity.
  - destruct (p x); simpl; rewrite IH; reflexivity.
Qed.

Lemma existsb_split {A} (f p : A -> bool) (l : list A) :
  existsb f l =
  existsb f (List.filter p l) || existsb f (List.filter (fun x => negb (p x)) l).
Proof.
  induction l as [|x l IH]; simpl; [reflexivity|].
  rewrite IH. destruct (p x); simpl;
    destruct (f x), (existsb f (List.filter p l)); reflexivity.
Qed.

(** The pass up to the end of [Promise.all], once the marketplace's answer
    is the list [api]: every call to [addCollectible] is made first, in the
    order of the answer; then the promises settle in some order; if all are
    fulfilled, what is left to remove is what no item of the answer
    matches. *)
Lemma reconcile_spec (this resumed : Detector) (picks : list nat)
  (api : list ApiCollectibleResponse) :
  getOwnerCollectibles timeoutFetch getOpenSeaApiKey this = Returned (Some api) ->
  exists (done : list (nat * ApiCollectibleResponse)) (rejection : list Event),
    snd (reconciled this resumed picks) =
      addCalls (pending resumed api) ++ settlements done ++ rejection
    /\ ((fst (reconciled this resumed picks) =
           Returned (List.filter (fun c => negb (reportedBy api c))
                       (collectibles (assetsState this)))
         /\ Permutation done (pending resumed api) /\ rejection = [])
        \/ (fst (reconciled this resumed picks) = Threw
            /\ exists item, In item (pending resumed api)
                            /\ fulfilled (snd item) = false
                            /\ rejection = [AddSettled (fst item) false])).
Proof.
  intros Hfetch. unfold reconcile. rewrite Hfetch. unfold startCallbacks.
  pose proof (startCallback_fold resumed (indexed api)
                {| collectiblesToRemove := collectibles (assetsState this);
                   awaiting := []; events := [] |}) as Hstart.
  cbv zeta in Hstart.
  remember (fold_left (startCallback Number resumed) (indexed api) _) as ps eqn:Hps.
  clear Hps. cbn [collectiblesToRemove awaiting events] in Hstart.
  destruct Hstart as (Hrem & Hwait & Hev). simpl in Hwait, Hev.
  fold (pending resumed api) in Hwait, Hev.
  remember (List.length (awaiting ps)) as fuel eqn:Hfuel.
  destruct (settle_spec fuel picks ps (eq_sym Hfuel))
    as (done & rejection & Hevents & Hres).
  rewrite Hwait in Hres.
  exists done, rejection. split.
  - rewrite Hevents, Hev. reflexivity.
  - destruct Hres as [(Hret & Hperm & Hrej) | Hthrew].
    + left. split; [|split; assumption].
      rewrite Hret, Hrem. f_equal.
      rewrite filter_filter_andb. apply filter_ext_eq. intros c.
      unfold pending.
      rewrite (filter_indexed (isIgnored resumed) api).
      rewrite (filter_indexed (fun x => negb (isIgnored resumed x)) api).
      unfold reportedBy.
      rewrite (existsb_split (fun item => reported Number item c) (isIgnored resumed) api).
      destruct (existsb _ (List.filter (isIgnored resumed) api)),
               (existsb _ (List.filter (fun x => negb (isIgnored resumed x)) api));
        reflexivity.
    + right. exact Hthrew.
Qed.

Lemma detect_open (this resumed : Detector) (picks : list nat) :
  gatesOpen this = true ->
  detect this resumed picks =
  match reconciled this resumed picks with
  | (Threw, events) => events
  | (Returned toRemove, events) => events ++ List.map removeCall toRemove
  end.
Proof.
  unfold gatesOpen, detectCollectibles. intros Hopen.
  apply andb_prop in Hopen as [Hmain Haddr]. rewrite Hmain, Haddr. simpl.
  unfold safelyExecute, reconcileAndRemove.
  destruct (reconciled this resumed picks) as [[toRemove|] events]; reflexivity.
Qed.

Lemma detect_closed (this resumed : Detector) (picks : list nat) :
  gatesOpen this = false -> detect this resumed picks = [].
Proof.
  unfold gatesOpen, detectCollectibles. intros Hclosed.
  destruct (isMainnet this); simpl in *; [|reflexivity].
  rewrite Hclosed. reflexivity.
Qed.

Lemma calls_app (e1 e2 : list Event) : calls (e1 ++ e2) = calls e1 ++ calls e2.
Proof. unfold calls. apply flat_map_app. Qed.

Lemma calls_addCalls (items : list (nat * ApiCollectibleResponse)) :
  calls (addCalls items) = List.map (fun item => addCall Number (snd item)) items.
Proof.
  induction items as [|item items IH]; simpl; [reflexivity|]. rewrite IH. reflexivity.
Qed.

Lemma calls_settlements (items : list (nat * ApiCollectibleResponse)) :
  calls (settlements items) = [].
Proof. induction items as [|item items IH]; simpl; [reflexivity|]. exact IH. Qed.

Lemma calls_removeCall (l : list Collectible) :
  calls (List.map removeCall l) = List.map removalOf l.
Proof.
  induction l as [|c l IH]; simpl; [reflexivity|]. rewrite IH. reflexivity.
Qed.

Lemma pending_addCalls (resumed : Detector) (api : list ApiCollectibleResponse) :
  List.map (fun item => addCall Number (snd item)) (pending resumed api) =
  List.map (addCall Number) (List.filter (fun item => negb (isIgnored resumed item)) api).
Proof.
  rewrite <- (filter_indexed (fun item => negb (isIgnored resumed item)) api).
  rewrite List.map_map. reflexivity.
Qed.

(** The add calls of a pass do not depend on how the promises settle. *)
Lemma detect_add_calls (this resumed : Detector) (picks : list nat)
  (api : list ApiCollectibleResponse) :
  gatesOpen this = true ->
  getOwnerCollectibles timeoutFetch getOpenSeaApiKey this = Returned (Some api) ->
  exists removed,
    calls (detect this resumed picks) =
    List.map (addCall Number) (List.filter (fun item => negb (isIgnored resumed item)) api)
    ++ List.map removalOf removed
    /\ (removed = []
        \/ removed = List.filter (fun c => negb (reportedBy api c))
                       (collectibles (assetsState this))).
Proof.
  intros Hopen Hfetch. rewrite (detect_open this resumed picks Hopen).
  destruct (reconcile_spec this resumed picks api Hfetch) as (done & rejection & Hev & Hres).
  destruct (reconciled this resumed picks) as [result events]. simpl in Hev, Hres. subst events.
  destruct Hres as [(Hret & _ & Hrej) | (Hthrew & item & _ & _ & Hrej)]; subst.
  - exists (List.filter (fun c => negb (reportedBy api c)) (collectibles (assetsState this))).
    rewrite !calls_app, calls_addCalls, calls_settlements, calls_removeCall.
    rewrite pending_addCalls. simpl. rewrite app_nil_r. split; [reflexivity|].
    right. reflexivity.
  - exists []. rewrite !calls_app, calls_addCalls, calls_settlements.
    rewrite pending_addCalls. simpl. split; [reflexivity|]. left. reflexivity.
Qed.

(** The calls of a pass in which every promise is fulfilled. *)
Lemma detect_calls (this resumed : Detector) (picks : list nat)
  (api : list ApiCollectibleResponse) :
  gatesOpen this = true ->
  getOwnerCollectibles timeoutFetch getOpenSeaApiKey this = Returned (Some api) ->
  (forall item, In item api -> isIgnored resumed item = false -> fulfilled item = true) ->
  calls (detect this resumed picks) =
  List.map (addCall Number) (List.filter (fun item => negb (isIgnored resumed item)) api)
  ++ List.map removalOf
       (List.filter (fun c => negb (reportedBy api c)) (collectibles (assetsState this))).
Proof.
  intros Hopen Hfetch Hall. rewrite (detect_open this resumed picks Hopen).
  destruct (reconcile_spec this resumed picks api Hfetch) as (done & rejection & Hev & Hres).
  destruct (reconciled this resumed picks) as [result events]. simpl in Hev, Hres. subst events.
  destruct Hres as [(Hret & _ & Hrej) | (Hthrew & item & Hin & Hno & Hrej)]; subst.
  - rewrite !calls_app, calls_addCalls, calls_settlements, calls_removeCall.
    rewrite pending_addCalls. simpl. rewrite app_nil_r. reflexivity.
  - exfalso. unfold pending in Hin. apply filter_In in Hin as [Hin Hnot].
    assert (Hitem : In (snd item) api).
    { rewrite <- (indexed_snd api). apply in_map. exact Hin. }
    apply negb_true_iff in Hnot.
    rewrite (Hall _ Hitem Hnot) in Hno. discriminate.
Qed.

Local Abbreviation request := (ownershipRequest timeoutFetch getOpenSeaApiKey).

Lemma request_answered (this : Detector) (api : list ApiCollectibleResponse) :
  request this = Body (Some api) ->
  getOwnerCollectibles timeoutFetch getOpenSeaApiKey this = Returned (Some api).
Proof. unfold getOwnerCollectibles. intros ->. reflexivity. Qed.

Lemma request_threw (this : Detector) :
  request this = FetchThrew ->
  getOwnerCollectibles timeoutFetch getOpenSeaApiKey this = Returned (Some []).
Proof. unfold getOwnerCollectibles. intros ->. reflexivity. Qed.

Lemma reportedBy_In (api : list ApiCollectibleResponse) (item : ApiCollectibleResponse)
  (c : Collectible) :
  In item api -> reported Number item c = true -> reportedBy api c = true.
Proof.
  intros Hin Hrep. unfold reportedBy. apply existsb_exists. exists item. split; assumption.
Qed.

(** Matching reads only the address and the token id of a stored
    collectible. *)
Lemma reported_same_pair (item : ApiCollectibleResponse) (c c' : Collectible) :
  removalOf c = removalOf c' -> reported Number item c = reported Number item c'.
Proof.
  unfold removalOf, reported. intros Heq. injection Heq as Haddr Hid.
  rewrite Haddr, Hid. reflexivity.
Qed.

(** The ignore-list lookup reads only what the add call carries of a
    reported item. *)
Lemma isIgnored_same_call (resumed : Detector) (item item' : ApiCollectibleResponse) :
  addCall Number item = addCall Number item' -> isIgnored resumed item = isIgnored resumed item'.
Proof.
  unfold addCall, isIgnored, ignoredCollectible. intros Heq.
  injection Heq as Haddr Hid _ _ _. rewrite Haddr, Hid. reflexivity.
Qed.

Lemma removal_not_add (l : list Collectible) (a : string) (t : JsNumber)
  (o : CollectibleInformation) (d : bool) :
  ~ In (AddCollectible a t o d) (List.map removalOf l).
Proof.
  intros Hin. apply in_map_iff in Hin as (c & Heq & _). discriminate.
Qed.

Lemma add_not_removal (l : list ApiCollectibleResponse) (c : Collectible) :
  ~ In (removalOf c) (List.map (addCall Number) l).
Proof.
  intros Hin. apply in_map_iff in Hin as (item & Heq & _). discriminate.
Qed.

(** C1 (amended).  With the gates of the pass open: when the marketplace
    answers with a list and no [addCollectible] promise is rejected,
    every collectible of the snapshot taken before the fetch that no item of
    the answer matches is removed; when the request itself throws, the pass goes on as for an
    empty answer and removes every collectible of the snapshot; only when
    reading the body of the answer throws, or the answer carries no list of
    assets, is nothing removed (nor added). *)
Theorem tombstone_removal (this resumed : Detector) (picks : list nat) :
  gatesOpen this = true ->
  (forall api,
      request this = Body (Some api) ->
      (forall item, In item api -> isIgnored resumed item = false -> fulfilled item = true) ->
      forall c, In c (collectibles (assetsState this)) ->
                reportedBy api c = false ->
                In (removalOf c) (calls (detect this resumed picks)))
  /\ (request this = FetchThrew ->
      calls (detect this resumed picks) = List.map removalOf (collectibles (assetsState this)))
  /\ (request this = BodyThrew \/ request this = Body None ->
      calls (detect this resumed picks) = []).
Proof.
  intros Hopen. split; [|split].
  - intros api Hreq Hall c Htracked Hnot.
    rewrite (detect_calls this resumed picks api Hopen (request_answered this api Hreq) Hall).
    apply in_or_app. right. apply in_map. apply filter_In. split; [exact Htracked|].
    rewrite Hnot. reflexivity.
  - intros Hreq.
    rewrite (detect_calls this resumed picks [] Hopen (request_threw this Hreq)).
    + simpl. f_equal. apply filter_all. reflexivity.
    + intros item [].
  - intros Hreq. rewrite (detect_open this resumed picks Hopen).
    unfold reconcile, getOwnerCollectibles. destruct Hreq as [-> | ->]; reflexivity.
Qed.

(** C2 (amended).  With the gates open and an answer [api], the calls of the
    pass are: one add call for each reported item that is not ignored, in the
    order of the answer, whether or not the item is tracked already; then
    remove calls, for the tracked collectibles that no reported item matches
    (or none at all, if an [addCollectible] promise is rejected).  Hence a
    run whose snapshot holds only reported collectibles (as after a first run
    with the same answer) issues the same add calls again and no remove
    call. *)
Theorem collectible_pass_calls (this resumed : Detector) (picks : list nat)
  (api : list ApiCollectibleResponse) :
  gatesOpen this = true ->
  request this = Body (Some api) ->
  (exists removed,
      calls (detect this resumed picks) =
        List.map (addCall Number)
          (List.filter (fun item => negb (isIgnored resumed item)) api)
        ++ List.map removalOf removed
      /\ (removed = []
          \/ removed = List.filter (fun c => negb (reportedBy api c))
                         (collectibles (assetsState this))))
  /\ ((forall c, In c (collectibles (assetsState this)) -> reportedBy api c = true) ->
      calls (detect this resumed picks) =
        List.map (addCall Number)
          (List.filter (fun item => negb (isIgnored resumed item)) api)).
Proof.
  intros Hopen Hreq.
  pose proof (detect_add_calls this resumed picks api Hopen (request_answered this api Hreq))
    as Hcalls.
  split; [exact Hcalls|].
  intros Hreported. destruct Hcalls as (removed & -> & [-> | ->]).
  - simpl. apply app_nil_r.
  - rewrite (filter_none (fun c => negb (reportedBy api c))).
    + simpl. apply app_nil_r.
    + intros c Hin. rewrite (Hreported c Hin). reflexivity.
Qed.

(** C4 (amended).  A reported item whose pair is in the collectible
    ignore-list is not added to the store; it is nevertheless struck from the
    removal candidates like any other reported item, so that the pass removes
    no collectible with that pair.  In particular an ignored pair that is not
    tracked is never added again, however often it is reported. *)
Theorem ignored_collectible_skipped (this resumed : Detector) (picks : list nat)
  (api : list ApiCollectibleResponse) (item : ApiCollectibleResponse) :
  request this = Body (Some api) ->
  In item api ->
  isIgnored resumed item = true ->
  ~ In (addCall Number item) (calls (detect this resumed picks))
  /\ (forall toRemove events,
         reconciled this resumed picks = (Returned toRemove, events) ->
         forall c, In c toRemove -> reported Number item c = false)
  /\ (forall c, reported Number item c = true ->
                ~ In (removalOf c) (calls (detect this resumed picks))).
Proof.
  intros Hreq Hin Hignored.
  pose proof (request_answered this api Hreq) as Hfetch.
  assert (Hcalls : exists removed,
             calls (detect this resumed picks) =
               List.map (addCall Number)
                 (List.filter (fun item => negb (isIgnored resumed item)) api)
               ++ List.map removalOf removed
             /\ (removed = []
                 \/ removed = List.filter (fun c => negb (reportedBy api c))
                                (collectibles (assetsState this)))
             \/ calls (detect this resumed picks) = []).
  { destruct (gatesOpen this) eqn:Hopen.
    - destruct (detect_add_calls this resumed picks api Hopen Hfetch) as (removed & H).
      exists removed. left. exact H.
    - exists []. right. rewrite (detect_closed this resumed picks Hopen). reflexivity. }
  destruct Hcalls as (removed & Hcalls).
  split; [|split].
  - intros Hadd. destruct Hcalls as [(Hcalls & _) | Hcalls]; rewrite Hcalls in Hadd;
      [|destruct Hadd].
    apply in_app_or in Hadd as [Hadd | Hadd].
    + apply in_map_iff in Hadd as (item' & Heq & Hin').
      apply filter_In in Hin' as [_ Hnot].
      rewrite (isIgnored_same_call resumed item' item Heq), Hignored in Hnot. discriminate.
    + exact (removal_not_add _ _ _ _ _ Hadd).
  - intros toRemove events Hrec c Hc.
    destruct (reconcile_spec this resumed picks api Hfetch) as (done & rejection & _ & Hres).
    rewrite Hrec in Hres. simpl in Hres.
    destruct Hres as [(Hret & _) | (Hthrew & _)]; [|discriminate].
    injection Hret as ->. apply filter_In in Hc as [_ Hnot].
    destruct (reported Number item c) eqn:Hrep; [|reflexivity].
    rewrite (reportedBy_In api item c Hin Hrep) in Hnot. discriminate.
  - intros c Hrep Hrem. destruct Hcalls as [(Hcalls & Hremoved) | Hcalls];
      rewrite Hcalls in Hrem; [|destruct Hrem].
    apply in_app_or in Hrem as [Hrem | Hrem]; [exact (add_not_removal _ _ Hrem)|].
    apply in_map_iff in Hrem as (c' & Heq & Hin').
    destruct Hremoved as [-> | ->]; [destruct Hin'|].
    apply filter_In in Hin' as [_ Hnot].
    rewrite (reported_same_pair item c c' (eq_sym Heq)) in Hrep.
    rewrite (reportedBy_In api item c' Hin Hrep) in Hnot. discriminate.
Qed.

Lemma indexed_fst {A} (l : list A) : List.map fst (indexed l) = seq 0 (List.length l).
Proof.
  unfold indexed. generalize 0%nat. induction l as [|x l IH]; intros n; simpl.
  - reflexivity.
  - rewrite IH. reflexivity.
Qed.

Lemma NoDup_fst_filter {A B} (p : A * B -> bool) (l : list (A * B)) :
  List.NoDup (List.map fst l) -> List.NoDup (List.map fst (List.filter p l)).
Proof.
  induction l as [|x l IH]; simpl; intros Hnd; [constructor|].
  inversion Hnd as [|? ? Hnotin Hnd']; subst.
  destruct (p x); simpl; [|apply IH; exact Hnd'].
  constructor; [|apply IH; exact Hnd'].
  intros Hin. apply Hnotin. apply in_map_iff in Hin as (y & Hy & Hin).
  apply in_map_iff. exists y. split; [exact Hy|].
  apply filter_In in Hin. tauto.
Qed.

Lemma pending_NoDup (resumed : Detector) (api : list ApiCollectibleResponse) :
  List.NoDup (List.map fst (pending resumed api)).
Proof.
  unfold pending. apply NoDup_fst_filter. rewrite indexed_fst. apply List.seq_NoDup.
Qed.

(** C7.  The events of a pass are, in this order: the calls to
    [addCollectible], one for each item that is added; the settlements of
    their promises; the calls to [removeCollectible].  Either every promise
    was fulfilled, each exactly once and before the first removal, or one was
    rejected and the pass removes nothing.  So a removal is issued only when
    every addition of the pass has completed, whatever the order in which
    the promises settle. *)
Theorem removals_follow_additions (this resumed : Detector) (picks : list nat) :
  exists (added done : list (nat * ApiCollectibleResponse))
         (rejection : list Event) (removed : list Collectible),
    detect this resumed picks =
      addCalls added ++ settlements done ++ rejection ++ List.map removeCall removed
    /\ List.NoDup (List.map fst added)
    /\ ((Permutation done added /\ rejection = [])
        \/ (removed = [] /\ exists i, rejection = [AddSettled i false])).
Proof.
  destruct (gatesOpen this) eqn:Hopen.
  - rewrite (detect_open this resumed picks Hopen).
    destruct (getOwnerCollectibles timeoutFetch getOpenSeaApiKey this)
      as [[api|]|] eqn:Hfetch.
    + destruct (reconcile_spec this resumed picks api Hfetch) as (done & rejection & Hev & Hres).
      destruct (reconciled this resumed picks) as [result events]. simpl in Hev, Hres.
      subst events.
      destruct Hres as [(-> & Hperm & ->) | (-> & item & _ & _ & ->)].
      * exists (pending resumed api), done, [],
          (List.filter (fun c => negb (reportedBy api c)) (collectibles (assetsState this))).
        split; [|split; [apply pending_NoDup | left; split; [exact Hperm | reflexivity]]].
        rewrite <- !app_assoc. reflexivity.
      * exists (pending resumed api), done, [AddSettled (fst item) false], [].
        split; [|split; [apply pending_NoDup | right; split; [reflexivity | eauto]]].
        simpl. reflexivity.
    + exists [], [], [], []. unfold reconcile. rewrite Hfetch. simpl.
      split; [reflexivity|]. split; [constructor|]. left. split; [constructor | reflexivity].
    + exists [], [], [], []. unfold reconcile. rewrite Hfetch. simpl.
      split; [reflexivity|]. split; [constructor|]. left. split; [constructor | reflexivity].
  - rewrite (detect_closed this resumed picks Hopen). exists [], [], [], []. simpl.
    split; [reflexivity|]. split; [constructor|]. left. split; [constructor | reflexivity].
Qed.

End CollectibleFacts.

(** *** The scenarios of the collectible pass *)

(** C1 (as stated) fails, both ways.  The request to the marketplace throws,
    and the tracked collectible is removed in that cycle.  And the
    marketplace answers without reporting the tracked collectible, but the
    [addCollectible] promise of the item it does report is rejected: the
    tracked collectible is not removed. *)
Lemma tombstone_both_ways :
  (ownershipRequest requestFails "" (tracking [kitty] []) = FetchThrew
   /\ calls (collectiblePassOn requestFails (tracking [kitty] []))
      = [RemoveCollectible checksumAddress (JsNum 5)])
  /\ (reportedBy NumberOfDigits [puppyReported] kitty = false
      /\ calls (detectCollectibles NumberOfDigits (answers [puppyReported]) "" alwaysRejected
                  (tracking [kitty] []) (tracking [kitty] []) [])
         = [AddCollectible lowerAddress (JsNum 6) puppyInformation true]).
Proof. repeat split; vm_compute; reflexivity. Qed.

Lemma tombstone_removal_witness :
  gatesOpen (tracking [kitty] []) = true
  /\ In (removalOf kitty) (calls (collectiblePassOn (answers []) (tracking [kitty] []))).
Proof.
  split; [reflexivity|].
  apply (proj1 (tombstone_removal NumberOfDigits (answers []) "" alwaysFulfilled
                  (tracking [kitty] []) (tracking [kitty] []) [] eq_refl) []).
  - reflexivity.
  - intros item [].
  - left. reflexivity.
  - reflexivity.
Defined.

(** C2 (as stated) fails on its own scenario: the store tracks
    [(checksumAddress, 5)], the marketplace reports the same pair with the
    address in lower case, and the pass calls [addCollectible] for it. *)
Lemma tracked_collectible_added_again :
  calls (collectiblePassOn (answers [kittyReported]) (tracking [kitty] []))
  = [AddCollectible lowerAddress (JsNum 5) kittyInformation true].
Proof. vm_compute. reflexivity. Qed.

Lemma collectible_pass_calls_witness :
  calls (collectiblePassOn (answers [kittyReported]) (tracking [kitty] []))
  = List.map (addCall NumberOfDigits)
      (List.filter (fun item => negb (isIgnored NumberOfDigits (tracking [kitty] []) item))
         [kittyReported]).
Proof.
  apply (proj2 (collectible_pass_calls NumberOfDigits (answers [kittyReported]) ""
                  alwaysFulfilled (tracking [kitty] []) (tracking [kitty] []) []
                  [kittyReported] eq_refl eq_refl)).
  intros c [<- | []]. vm_compute. reflexivity.
Defined.

(** C4 (as stated) fails: the pair of [kitty] is ignored and tracked, the
    marketplace reports it, and the pair is struck from the removal
    candidates. *)
Lemma ignored_collectible_struck :
  isIgnored NumberOfDigits (tracking [kitty] [kitty]) kittyReported = true
  /\ In kitty (collectibles (assetsState (tracking [kitty] [kitty])))
  /\ reconcile NumberOfDigits (answers [kittyReported]) "" alwaysFulfilled
       (tracking [kitty] [kitty]) (tracking [kitty] [kitty]) []
     = (Returned [], []).
Proof.
  split; [vm_compute; reflexivity|]. split; [left; reflexivity|].
  vm_compute. reflexivity.
Qed.

Lemma ignored_collectible_skipped_witness :
  ~ In (addCall NumberOfDigits kittyReported)
       (calls (collectiblePassOn (answers [kittyReported]) (tracking [] [kitty]))).
Proof.
  apply (proj1 (ignored_collectible_skipped NumberOfDigits (answers [kittyReported]) ""
                  alwaysFulfilled (tracking [] [kitty]) (tracking [] [kitty]) []
                  [kittyReported] kittyReported
                  eq_refl (or_introl eq_refl) ltac:(vm_compute; reflexivity))).
Defined.

(* ===================================================================== *)
(** ** Facts about the token pass *)

Section TokenFacts.

Variable contractMap : list (string * ContractEntry).
Variable getAssetContractBalancesInSingleCall :
  string -> list string -> outcome (list (string * Z)).

Local Abbreviation detect := (detectTokens contractMap getAssetContractBalancesInSingleCall).
Local Abbreviation stage := (stageTokens contractMap).

Lemma ignoredToken_None (this : Detector) (a : string) :
  ignoredToken this a = None <->
  ~ In (toChecksumAddress a) (List.map token_address (ignoredTokens (assetsState this))).
Proof.
  unfold ignoredToken.
  destruct (ignoredTokens (assetsState this)) as [|t l] eqn:Hl; simpl (0 <? _)%nat; cbv iota.
  - simpl. tauto.
  - split.
    + intros Hnone Hin. apply in_map_iff in Hin as (u & Hu & Hin).
      pose proof (find_none _ _ Hnone u Hin) as Hneq. simpl in Hneq.
      rewrite Hu, String.eqb_refl in Hneq. discriminate.
    + intros Hnot. destruct (List.find _ (t :: l)) as [u|] eqn:Hfind; [|reflexivity].
      exfalso. apply find_some in Hfind as [Hin Heq]. apply String.eqb_eq in Heq.
      apply Hnot. rewrite <- Heq. apply in_map. exact Hin.
Qed.

Lemma stageTokens_spec (this : Detector) (keys : list string) :
  forall acc,
    (forall k, In k keys -> get contractMap k <> None) ->
    exists staged,
      stage this keys acc = Returned (acc ++ staged)
      /\ (forall a, In a (List.map token_address staged) <->
                    In a keys /\ ignoredToken this a = None)
      /\ (forall t, In t staged ->
            exists contract, get contractMap (token_address t) = Some contract
                             /\ token_decimals t = decimals contract
                             /\ token_symbol t = symbol contract).
Proof.
  induction keys as [|k keys IH]; intros acc Hreg.
  - exists []. simpl. rewrite app_nil_r. split; [reflexivity|].
    split; [tauto | intros t []].
  - simpl. destruct (ignoredToken this k) as [found|] eqn:Hign.
    + destruct (IH acc) as (staged & Hrun & Hiff & Hmeta).
      { intros k' Hin. apply Hreg. right. exact Hin. }
      exists staged. split; [exact Hrun|]. split; [|exact Hmeta].
      intros a. rewrite Hiff. split.
      * intros [Hin Hnone]. split; [right; exact Hin | exact Hnone].
      * intros [[<- | Hin] Hnone]; [congruence | split; assumption].
    + destruct (get contractMap k) as [contract|] eqn:Hget.
      * match goal with
        | |- context [stage this keys (acc ++ [?t])] => set (tok := t)
        end.
        destruct (IH (acc ++ [tok])) as (staged & Hrun & Hiff & Hmeta).
        { intros k' Hin. apply Hreg. right. exact Hin. }
        exists (tok :: staged). split.
        { rewrite Hrun, <- app_assoc. reflexivity. }
        split.
        -- intros a. simpl. rewrite Hiff. split.
           ++ intros [<- | [Hin Hnone]]; [split; [left; reflexivity | exact Hign]|].
              split; [right; exact Hin | exact Hnone].
           ++ intros [[<- | Hin] Hnone]; [left; reflexivity | right; split; assumption].
        -- intros t [<- | Hin]; [|apply Hmeta; exact Hin].
           exists contract. simpl. repeat split. exact Hget.
      * exfalso. apply (Hreg k); [left; reflexivity | exact Hget].
Qed.

(** C3 (amended).  With the gates open and every fetched address in the
    registry, a Token record is staged for an address exactly when the
    address is a key of the balance map the fetcher returned and its
    checksum form is not the address of an ignored token; the staged record
    takes its symbol and decimals from the registry, and the staged tokens,
    if any, go to the store in one [addTokens] call.  The pass never reads a
    balance: an ignored address is never added, and an address absent from
    the map is never added, but an entry of the map is staged whatever its
    balance. *)
Theorem staged_tokens_exactly (this resumed : Detector) (balances : list (string * Z)) :
  gatesOpen this = true ->
  getAssetContractBalancesInSingleCall (selectedAddress (config this))
    (tokensToDetect contractMap this) = Returned balances ->
  (forall a, In a (List.map fst balances) -> get contractMap a <> None) ->
  exists tokensToAdd,
    detect this resumed = (if (0 <? List.length tokensToAdd)%nat then [AddTokens tokensToAdd] else [])
    /\ (forall a, In a (List.map token_address tokensToAdd) <->
                  In a (List.map fst balances)
                  /\ ~ In (toChecksumAddress a)
                          (List.map token_address (ignoredTokens (assetsState resumed))))
    /\ (forall t, In t tokensToAdd ->
          exists contract, get contractMap (token_address t) = Some contract
                           /\ token_decimals t = decimals contract
                           /\ token_symbol t = symbol contract).
Proof.
  intros Hopen Hfetch Hreg. unfold gatesOpen in Hopen.
  apply andb_prop in Hopen as [Hmain Haddr].
  destruct (stageTokens_spec resumed (List.map fst balances) [] Hreg)
    as (staged & Hrun & Hiff & Hmeta).
  exists staged. split; [|split; [|exact Hmeta]].
  - unfold detectTokens, safelyExecute, stageAndAdd.
    rewrite Hmain, Haddr. simpl. rewrite Hfetch, Hrun. reflexivity.
  - intros a. rewrite Hiff, ignoredToken_None. tauto.
Qed.

(** The token pass issues at most one call, an [addTokens] of a list that is
    not empty. *)
Lemma detectTokens_shape (this resumed : Detector) :
  detect this resumed = []
  \/ exists tokensToAdd, tokensToAdd <> [] /\ detect this resumed = [AddTokens tokensToAdd].
Proof.
  unfold detectTokens, safelyExecute, stageAndAdd.
  destruct (negb (isMainnet this)); [left; reflexivity|].
  destruct (negb (truthy _)); [left; reflexivity|].
  destruct (getAssetContractBalancesInSingleCall _ _) as [balances|]; [|left; reflexivity].
  destruct (stage resumed _ []) as [tokensToAdd|]; [|left; reflexivity].
  destruct tokensToAdd as [|t l]; [left; reflexivity|].
  right. exists (t :: l). split; [discriminate | reflexivity].
Qed.

Section Store.

(** Any store, with the addresses of the tokens it tracks and its reaction to
    a call, whose [addTokens] drops no token. *)
Variable Store : Type.
Variable trackedTokens : Store -> list string.
Variable applyCall : StoreCall -> Store -> Store.
Hypothesis addTokens_keeps :
  forall l store a,
    In a (trackedTokens store) -> In a (trackedTokens (applyCall (AddTokens l) store)).

(** C8.  The token pass issues no call on the store other than one
    [addTokens] of the staged tokens, and none at all when nothing is staged:
    in particular no removal.  So whatever registry, tracked tokens and
    fetched balances (zero or not) the pass runs on, every token the store
    tracked before the pass is tracked after it. *)
Theorem token_pass_only_adds (this resumed : Detector) (store : Store) :
  (detect this resumed = []
   \/ exists tokensToAdd, tokensToAdd <> [] /\ detect this resumed = [AddTokens tokensToAdd])
  /\ (forall a t, ~ In (RemoveCollectible a t) (detect this resumed))
  /\ (forall a, In a (trackedTokens store) ->
                In a (trackedTokens (runCalls applyCall (detect this resumed) store))).
Proof.
  pose proof (detectTokens_shape this resumed) as Hshape. split; [exact Hshape|].
  destruct Hshape as [-> | (l & _ & ->)]; split; simpl; try tauto.
  - intros a t [Heq | []]. discriminate.
  - intros a Hin. apply addTokens_keeps. exact Hin.
Qed.

End Store.

End TokenFacts.

(** *** The scenarios of the token pass *)

(** C3 (as stated) fails, both ways.  The fetcher reports the balance 0 for
    the only candidate, nothing is ignored, and the token is added.  And the
    fetcher reports a nonzero balance for an address the registry does not
    have: reading its decimals throws, and no token is added. *)
Lemma zero_balance_token_staged :
  (balancesAll 0 ownerAddress (tokensToDetect registry (ignoringTokens [] []))
   = Returned [(checksumAddress, 0)]
   /\ tokenPassOn 0 (ignoringTokens [] []) = [AddTokens [token checksumAddress]])
  /\ (get registry ownerAddress = None
      /\ detectTokens registry (balancesOf [(ownerAddress, 100)])
           (ignoringTokens [] []) (ignoringTokens [] []) = []).
Proof. repeat split; vm_compute; reflexivity. Qed.

Lemma staged_tokens_exactly_witness :
  exists tokensToAdd,
    tokenPassOn 100 (ignoringTokens [] [token checksumAddress])
    = (if (0 <? List.length tokensToAdd)%nat then [AddTokens tokensToAdd] else [])
    /\ (forall a, In a (List.map token_address tokensToAdd) <->
                  In a (List.map fst [(checksumAddress, 100)])
                  /\ ~ In (toChecksumAddress a)
                          (List.map token_address
                             (ignoredTokens
                                (assetsState (ignoringTokens [] [token checksumAddress])))))
    /\ (forall t, In t tokensToAdd ->
          exists contract, get registry (token_address t) = Some contract
                           /\ token_decimals t = decimals contract
                           /\ token_symbol t = symbol contract).
Proof.
  apply (staged_tokens_exactly registry (balancesAll 100)
           (ignoringTokens [] [token checksumAddress])
           (ignoringTokens [] [token checksumAddress]) [(checksumAddress, 100)]).
  - reflexivity.
  - vm_compute. reflexivity.
  - intros a [<- | []]. vm_compute. discriminate.
Defined.

Lemma listStore_keeps (l : list Token) (store : list Token) (a : string) :
  In a (List.map token_address store) ->
  In a (List.map token_address (listStore_apply (AddTokens l) store)).
Proof.
  intros Hin. simpl. rewrite List.map_app. apply in_or_app. left. exact Hin.
Qed.

Lemma token_pass_only_adds_witness :
  In checksumAddress
     (List.map token_address
        (runCalls listStore_apply
           (tokenPassOn 0 (ignoringTokens [token checksumAddress] []))
           [token checksumAddress])).
Proof.
  apply (proj2 (proj2 (token_pass_only_adds registry (balancesAll 0) (list Token)
                         (List.map token_address) listStore_apply listStore_keeps
                         (ignoringTokens [token checksumAddress] [])
                         (ignoringTokens [token checksumAddress] [])
                         [token checksumAddress]))).
  left. reflexivity.
Defined.

(* ===================================================================== *)
(** ** Address comparisons *)




(* ===================================================================== *)
(** ** Facts about polling *)

Lemma detectAssets_no_timer (this : Detector) :
  existsb is_timer_effect (detectAssets this) = false.
Proof. unfold detectAssets. destruct (negb (isMainnet this)); reflexivity. Qed.

(** Along any sequence of inputs, a timer is armed once for each firing of
    the timer and never for another event. *)
Lemma timers_armed (inputs : list Input) (c : Controller) :
  List.length (List.filter is_SetTimeout (snd (run c inputs)))
  = List.length (List.filter is_TimerFired inputs)
  /\ (nextTimer (fst (run c inputs))
      = nextTimer c + List.length (List.filter is_TimerFired inputs))%nat.
Proof.
  revert c. induction inputs as [|input inputs IH]; intros c; simpl.
  - split; [reflexivity | lia].
  - destruct (react c input) as [c1 effects1] eqn:Hreact.
    specialize (IH c1). destruct (run c1 inputs) as [c2 effects2]. simpl in *.
    destruct IH as [IHarmed IHnext].
    rewrite List.filter_app, List.length_app, IHarmed, IHnext.
    destruct input; simpl in Hreact.
    + unfold poll in Hreact. injection Hreact as <- <-. simpl.
      rewrite !List.filter_app, !List.length_app. simpl.
      assert (Hnone : forall this, List.filter is_SetTimeout (detectAssets this) = []).
      { intros this. unfold detectAssets. destruct (negb (isMainnet this)); reflexivity. }
      rewrite Hnone. destruct (handle c); simpl; lia.
    + unfold onPreferencesStateChange in Hreact.
      destruct (negb _) in Hreact; injection Hreact as <- <-; simpl.
      * unfold detectAssets. destruct (negb (isMainnet _)); simpl; lia.
      * lia.
    + injection Hreact as <- <-. simpl. lia.
    + injection Hreact as <- <-. simpl. lia.
Qed.

(** C6 (as stated) fails for the account-change event: with timer 0 pending,
    a change of the selected account starts the two passes and nothing else;
    the timer is neither cleared nor armed anew. *)
Lemma account_change_keeps_timer :
  let c := fst (start (tracking [] [])) in
  handle c = Some 0%nat
  /\ snd (react c (PreferencesStateChange lowerAddress)) = [DetectTokens; DetectCollectibles]
  /\ handle (fst (react c (PreferencesStateChange lowerAddress))) = Some 0%nat.
Proof. vm_compute. repeat split. Qed.

(** C6 (amended).  [poll], which runs on start and each time the timer
    fires, clears the pending timer if there is one, calls [detectAssets]
    (which starts the token pass and the collectible pass on mainnet, without
    waiting for them) and then arms a new timer for the configured interval,
    whatever becomes of the passes.  An account-change event only configures
    the new address and calls [detectAssets], and does nothing at all when
    the address is the one already selected: it touches no timer.  So along
    any sequence of events a timer is armed once per firing of the timer and
    never otherwise. *)
Theorem poll_rearms_timer (i : option Z) (c : Controller) (selected : string) :
  (snd (poll i c) =
     match handle c with Some h => [ClearTimeout h] | None => [] end
     ++ detectAssets (detector (fst (poll i c)))
     ++ [SetTimeout (nextTimer c) (interval (config (detector (fst (poll i c)))))]
   /\ handle (fst (poll i c)) = Some (nextTimer c)
   /\ nextTimer (fst (poll i c)) = S (nextTimer c))
  /\ (forall this, start this =
                   poll None {| detector := this; handle := None; nextTimer := 0%nat |})
  /\ react c TimerFired = poll (Some (interval (config (detector c)))) c
  /\ (handle (fst (react c (PreferencesStateChange selected))) = handle c
      /\ nextTimer (fst (react c (PreferencesStateChange selected))) = nextTimer c
      /\ existsb is_timer_effect (snd (react c (PreferencesStateChange selected))) = false
      /\ snd (react c (PreferencesStateChange selected)) =
           if String.eqb selected (selectedAddress (config (detector c))) then []
           else detectAssets (configure_selectedAddress selected (detector c)))
  /\ (forall inputs,
         List.length (List.filter is_SetTimeout (snd (run c inputs)))
         = List.length (List.filter is_TimerFired inputs)).
Proof.
  split; [|split; [|split; [|split]]]; [| | | |intros inputs; apply timers_armed].
  - unfold poll. simpl. repeat split.
  - reflexivity.
  - reflexivity.
  - simpl. unfold onPreferencesStateChange.
    destruct (String.eqb selected (selectedAddress (config (detector c)))); simpl.
    + repeat split.
    + repeat split. apply detectAssets_no_timer.
Qed.

(* ===================================================================== *)
(** ** Facts about TokenBalancesController *)

Section BalanceFacts.

Variable getBalanceOfAssetContract : string -> string -> BalanceResult.

Local Abbreviation loop := (updateLoop getBalanceOfAssetContract).
Local Abbreviation recorded := (recordedBalance getBalanceOfAssetContract).
Local Abbreviation recordedErr := (recordedError getBalanceOfAssetContract).

(** The loop writes an entry for every token address, leaves the other
    entries alone, and sets the [balanceError] of every token. *)
Lemma updateLoop_spec (selected : string) (tokens : list Token) :
  forall m : gmap string Balance,
    (forall a, In a (List.map token_address tokens) ->
               snd (loop selected tokens m) !! a = Some (recorded selected a))
    /\ (forall a, ~ In a (List.map token_address tokens) ->
                  snd (loop selected tokens m) !! a = m !! a)
    /\ fst (loop selected tokens m) =
         List.map (fun t => set_balanceError (recordedErr selected (token_address t)) t) tokens.
Proof.
  induction tokens as [|t tokens IH]; intros m.
  - simpl. repeat split; tauto.
  - assert (Hstep : exists v,
               loop selected (t :: tokens) m =
                 (set_balanceError (recordedErr selected (token_address t)) t
                    :: fst (loop selected tokens (<[token_address t := v]> m)),
                  snd (loop selected tokens (<[token_address t := v]> m)))
               /\ v = recorded selected (token_address t)).
    { unfold recordedBalance, recordedError. simpl.
      destruct (getBalanceOfAssetContract (token_address t) selected) as [b|e];
        eexists; (split; [|reflexivity]);
        destruct (loop selected tokens _); reflexivity. }
    destruct Hstep as (v & Hstep & Hv). rewrite Hstep. simpl.
    destruct (IH (<[token_address t := v]> m)) as (Hin & Hout & Htokens).
    split; [|split].
    + intros a Ha.
      destruct (in_dec string_dec a (List.map token_address tokens)) as [Hlater | Hnot].
      * apply Hin. exact Hlater.
      * destruct Ha as [<- | Ha]; [|contradiction].
        rewrite (Hout _ Hnot), lookup_insert_eq, Hv. reflexivity.
    + intros a Ha. rewrite Hout by tauto.
      apply lookup_insert_ne. intros Heq. apply Ha. left. exact Heq.
    + rewrite Htokens. reflexivity.
Qed.

(** C10.  When the controller is enabled, [updateBalances] leaves a
    [contractBalances] whose keys are exactly the addresses of the configured
    tokens; the entry of a token is the balance fetched for it, or the number
    0 when its fetch threw; each token's [balanceError] is [null], or the
    error thrown, its address, decimals and symbol being as before.  Every
    token is treated, whatever happened to the others. *)
Theorem updateBalances_records_every_token (this : TokenBalances) :
  tb_disabled this = false ->
  let this' := updateBalances getBalanceOfAssetContract this in
  let selected := tb_selectedAddress this in
  dom (contractBalances this') = list_to_set (List.map token_address (tb_tokens this))
  /\ (forall t, In t (tb_tokens this) ->
        contractBalances this' !! token_address t =
          Some match getBalanceOfAssetContract (token_address t) selected with
               | Fulfilled balance => BN balance
               | Rejected _ => NumberZero
               end)
  /\ tb_tokens this' =
       List.map (fun t =>
                   {| token_address := token_address t;
                      token_decimals := token_decimals t;
                      token_symbol := token_symbol t;
                      token_balanceError :=
                        match getBalanceOfAssetContract (token_address t) selected with
                        | Fulfilled _ => ErrorNull
                        | Rejected error => ErrorThrown error
                        end |})
         (tb_tokens this).
Proof.
  intros Henabled. unfold updateBalances. rewrite Henabled.
  destruct (updateLoop_spec (tb_selectedAddress this) (tb_tokens this) ∅)
    as (Hin & Hout & Htokens).
  destruct (loop (tb_selectedAddress this) (tb_tokens this) ∅) as [tokens' m].
  simpl in *. split; [|split].
  - apply set_eq. intros a. rewrite elem_of_dom, elem_of_list_to_set, list_elem_of_In.
    destruct (in_dec string_dec a (List.map token_address (tb_tokens this))) as [Ha | Ha].
    + rewrite (Hin a Ha). split; [intros _; exact Ha | intros _; eexists; reflexivity].
    + rewrite (Hout a Ha), lookup_empty. split; [intros [? ?]; discriminate | contradiction].
  - intros t Ht. apply Hin. apply in_map. exact Ht.
  - exact Htokens.
Qed.

End BalanceFacts.

Lemma updateBalances_records_every_token_witness :
  contractBalances (updateBalances failingOnce twoTokens) !! lowerAddress = Some NumberZero
  /\ contractBalances (updateBalances failingOnce twoTokens) !! ownerAddress = Some (BN 7)
  /\ tb_tokens (updateBalances failingOnce twoTokens)
     = [ {| token_address := lowerAddress; token_decimals := 18; token_symbol := "TKN";
            token_balanceError := ErrorThrown "timeout" |};
         {| token_address := ownerAddress; token_decimals := 18; token_symbol := "TKN";
            token_balanceError := ErrorNull |} ].
Proof.
  pose proof (updateBalances_records_every_token failingOnce twoTokens eq_refl)
    as (_ & Hentries & Htokens).
  split; [|split].
  - apply (Hentries (token lowerAddress)). left. reflexivity.
  - apply (Hentries (token ownerAddress)). right. left. reflexivity.
  - exact Htokens.
Defined.

(* ===================================================================== *)
(** ** Facts about ComposableController *)

Lemma to_uint_not_Nil (n : nat) : Nat.to_uint n <> Decimal.Nil.
Proof.
  intros Hnil. assert (Hzero : n = 0%nat).
  { rewrite <- (DecimalNat.Unsigned.of_to n), Hnil. reflexivity. }
  subst n. discriminate.
Qed.

Lemma string_of_index_inj (i j : nat) : string_of_index i = string_of_index j -> i = j.
Proof.
  unfold string_of_index. intros Heq.
  apply DecimalNat.Unsigned.to_uint_inj.
  pose proof (NilZero.usu (Nat.to_uint i) (to_uint_not_Nil i)) as Hi.
  pose proof (NilZero.usu (Nat.to_uint j) (to_uint_not_Nil j)) as Hj.
  rewrite Heq, Hj in Hi. injection Hi as Hi. symmetry. exact Hi.
Qed.

Section CompositionFacts.

Variable ChildState : Type.

Local Abbreviation Child := (Child ChildState).
Local Abbreviation assign := (assign ChildState).

Local Abbreviation entriesFrom := (entriesFrom ChildState).

(** Entries numbered from [k] on leave the keys of smaller indices alone, and
    every key that is not an index. *)
Lemma entries_fold_other (l : list Child) :
  forall (k : nat) (m : gmap string ChildState) (key : string),
    (forall i, (k <= i)%nat -> key <> string_of_index i) ->
    fold_left assign (entriesFrom k l) m !! key = m !! key.
Proof.
  unfold entriesFrom.
  induction l as [|c l IH]; intros k m key Hkey; simpl; [reflexivity|].
  rewrite IH.
  - apply lookup_insert_ne. intros Heq. apply (Hkey k); [lia | symmetry; exact Heq].
  - intros i Hi. apply Hkey. lia.
Qed.

(** The entry numbered [k + i] holds the state of the child at position
    [i]. *)
Lemma entries_fold_index (l : list Child) :
  forall (k : nat) (m : gmap string ChildState) (i : nat) (c : Child),
    l !! i = Some c ->
    fold_left assign (entriesFrom k l) m !! string_of_index (k + i) = Some (child_state _ c).
Proof.
  induction l as [|x l IH]; intros k m i c Hi; [discriminate|].
  destruct i as [|i].
  - injection Hi as ->. replace (k + 0)%nat with k by lia.
    change (entriesFrom k (c :: l)) with ((string_of_index k, c) :: entriesFrom (S k) l).
    simpl. rewrite entries_fold_other.
    + apply lookup_insert_eq.
    + intros j Hj Heq. apply string_of_index_inj in Heq. lia.
  - change (entriesFrom k (x :: l)) with ((string_of_index k, x) :: entriesFrom (S k) l).
    simpl. replace (k + S i)%nat with (S k + i)%nat by lia.
    apply IH. exact Hi.
Qed.

(** At construction the composed state holds each child's state under the
    child's position in the list, and nothing under any other key. *)
Lemma initialState_lookup (children : list Child) :
  (forall i c, children !! i = Some c ->
               initialState _ children !! string_of_index i = Some (child_state _ c))
  /\ (forall key, (forall i, key <> string_of_index i) ->
                  initialState _ children !! key = None).
Proof.
  unfold initialState, entries, indexed. split.
  - intros i c Hi. apply (entries_fold_index children 0%nat ∅ i c Hi).
  - intros key Hkey.
    rewrite (entries_fold_other children 0%nat ∅ key) by (intros i _; apply Hkey).
    apply lookup_empty.
Qed.

(** A change notification of a child replaces the entry under the child's
    name, and only that one. *)
Lemma publish_lookup (this : Composable ChildState) (i : nat) (c : Child) (s : ChildState) :
  controllers _ this !! i = Some c ->
  state _ (publish _ i s this) = <[child_name _ c := s]> (state _ this).
Proof. unfold publish. intros ->. reflexivity. Qed.

End CompositionFacts.

(** C9, on the code: a composer built over two children holds their states
    under the keys ["0"] and ["1"] and nothing under their names; once the
    first child has published a new state, that state is under the child's
    name while the key ["0"] still holds the state it had at construction,
    which is also what [flatState] is keyed by. *)
Theorem composed_state_keyed_by_index :
  let composer := construct string [networkChild; preferencesChild] in
  state _ composer !! "NetworkController" = None
  /\ state _ composer !! "0" = Some "mainnet"
  /\ state _ composer !! "1" = Some "0xfB69"
  /\ state _ (publish _ 0%nat "ropsten" composer) !! "NetworkController" = Some "ropsten"
  /\ state _ (publish _ 0%nat "ropsten" composer) !! "0" = Some "mainnet"
  /\ flatState _ (publish _ 0%nat "ropsten" composer) !! "NetworkController" = None
  /\ flatState _ (publish _ 0%nat "ropsten" composer) !! "0" = Some "ropsten".
Proof. vm_compute. repeat split. Qed.

(* ===================================================================== *)
(** ** More on the collectible pass *)

Section CollectibleOrder.

Variable Number : string -> JsNumber.
Variable timeoutFetch : string -> option string -> FetchResult.
Variable getOpenSeaApiKey : string.
Variable addCollectible : string -> JsNumber -> CollectibleInformation -> bool -> bool.

Local Abbreviation detect := (detectCollectibles Number timeoutFetch getOpenSeaApiKey addCollectible).
Local Abbreviation reconciled := (reconcile Number timeoutFetch getOpenSeaApiKey addCollectible).
Local Abbreviation settled := (settle Number addCollectible).
Local Abbreviation fulfilled := (addFulfilled Number addCollectible).
Local Abbreviation isIgnored := (isIgnored Number).
Local Abbreviation reportedBy := (reportedBy Number).
Local Abbreviation pending := (pending Number).
Local Abbreviation request := (ownershipRequest timeoutFetch getOpenSeaApiKey).
Local Abbreviation owned := (getOwnerCollectibles timeoutFetch getOpenSeaApiKey).

(** One rejected promise among the suspended callbacks rejects
    [Promise.all], whenever it settles. *)
Lemma settle_rejects (fuel : nat) :
  forall (picks : list nat) (ps : PassState),
    List.length (awaiting ps) = fuel ->
    (exists item, In item (awaiting ps) /\ fulfilled (snd item) = false) ->
    fst (settled fuel picks ps) = Threw.
Proof.
  induction fuel as [|fuel IH]; intros picks ps Hlen (bad & Hin & Hbad).
  - destruct (awaiting ps); [destruct Hin | discriminate].
  - simpl. destruct (awaiting ps) as [|first rest] eqn:Hw; [destruct Hin|].
    set (k := (hd 0%nat picks mod List.length (first :: rest))%nat).
    assert (Hk : (k < List.length (first :: rest))%nat).
    { apply Nat.mod_upper_bound. simpl. lia. }
    destruct (fulfilled (snd (nth k (first :: rest) first))) eqn:Hok; [|reflexivity].
    apply IH.
    + cbn [awaiting]. rewrite remove_nth_length by exact Hk. simpl in *. lia.
    + cbn [awaiting]. exists bad. split; [|exact Hbad].
      pose proof (remove_nth_Permutation k (first :: rest) first Hk) as Hperm.
      apply Permutation_sym in Hperm.
      destruct (Permutation_in _ Hperm Hin) as [Heq | Hrest]; [|exact Hrest].
      rewrite Heq, Hbad in Hok. discriminate.
Qed.

Lemma In_indexed {A} (x : A) (l : list A) :
  In x l -> exists i, In (i, x) (indexed l).
Proof.
  intros Hin. rewrite <- (indexed_snd l) in Hin.
  apply in_map_iff in Hin as ([i y] & Heq & Hin). simpl in Heq. subst y.
  exists i. exact Hin.
Qed.

Lemma rejected_calls (this resumed : Detector) (picks : list nat)
  (api : list ApiCollectibleResponse) (item : ApiCollectibleResponse) :
  gatesOpen this = true ->
  owned this = Returned (Some api) ->
  In item api -> isIgnored resumed item = false -> fulfilled item = false ->
  calls (detect this resumed picks) =
  List.map (addCall Number) (List.filter (fun item => negb (isIgnored resumed item)) api).
Proof.
  intros Hopen Hfetch Hin Hnot Hbad.
  rewrite (detect_open Number timeoutFetch getOpenSeaApiKey addCollectible
             this resumed picks Hopen).
  destruct (reconcile_spec Number timeoutFetch getOpenSeaApiKey addCollectible
              this resumed picks api Hfetch) as (done & rejection & Hev & Hres).
  assert (Hthrew : fst (reconciled this resumed picks) = Threw).
  { unfold reconcile. rewrite Hfetch. unfold startCallbacks.
    apply settle_rejects; [reflexivity|].
    destruct (startCallback_fold Number resumed (indexed api)
                {| collectiblesToRemove := collectibles (assetsState this);
                   awaiting := []; events := [] |}) as (_ & Hwait & _).
    rewrite Hwait. simpl.
    destruct (In_indexed item api Hin) as (i & Hi).
    exists (i, item). split; [|exact Hbad].
    apply filter_In. split; [exact Hi|]. simpl. rewrite Hnot. reflexivity. }
  destruct (reconciled this resumed picks) as [result events]. simpl in *. subst.
  destruct Hres as [(Hret & _) | (_ & bad & _ & _ & ->)]; [discriminate|].
  rewrite !calls_app, calls_addCalls, calls_settlements.
  rewrite (pending_addCalls Number). simpl. apply app_nil_r.
Qed.

(** X1.  The calls of a collectible pass on the store (which calls, with which
    arguments, in which order) do not depend on the order in which the
    promises of [addCollectible] settle. *)
Theorem calls_independent_of_settlement (this resumed : Detector) (picks picks' : list nat) :
  calls (detect this resumed picks) = calls (detect this resumed picks').
Proof.
  destruct (gatesOpen this) eqn:Hopen.
  2:{ rewrite !(detect_closed Number timeoutFetch getOpenSeaApiKey addCollectible
                  this resumed _ Hopen). reflexivity. }
  destruct (owned this) as [[api|]|] eqn:Hfetch.
  - destruct (forallb (fun item => isIgnored resumed item || fulfilled item) api) eqn:Hall.
    + assert (Hok : forall item, In item api -> isIgnored resumed item = false ->
                                 fulfilled item = true).
      { intros item Hin Hnot. rewrite forallb_forall in Hall.
        specialize (Hall item Hin). rewrite Hnot in Hall. exact Hall. }
      rewrite !(detect_calls Number timeoutFetch getOpenSeaApiKey addCollectible
                  this resumed _ api Hopen Hfetch Hok). reflexivity.
    + assert (Hbad : exists item, In item api /\ isIgnored resumed item = false
                                  /\ fulfilled item = false).
      { apply not_true_iff_false in Hall.
        destruct (existsb (fun item => negb (isIgnored resumed item || fulfilled item)) api)
          eqn:Hex.
        - apply existsb_exists in Hex as (item & Hin & Hneg).
          apply negb_true_iff, orb_false_iff in Hneg. exists item. tauto.
        - exfalso. apply Hall. apply forallb_forall. intros item Hin.
          destruct (isIgnored resumed item || fulfilled item) eqn:Hv; [reflexivity|].
          assert (Hcontra : existsb (fun item => negb (isIgnored resumed item || fulfilled item))
                              api = true).
          { apply existsb_exists. exists item. rewrite Hv. split; [exact Hin | reflexivity]. }
          rewrite Hcontra in Hex. discriminate. }
      destruct Hbad as (item & Hin & Hnot & Hbad).
      rewrite !(rejected_calls this resumed _ api item Hopen Hfetch Hin Hnot Hbad).
      reflexivity.
  - rewrite !(detect_open Number timeoutFetch getOpenSeaApiKey addCollectible
                this resumed _ Hopen).
    unfold reconcile. rewrite Hfetch. reflexivity.
  - rewrite !(detect_open Number timeoutFetch getOpenSeaApiKey addCollectible
                this resumed _ Hopen).
    unfold reconcile. rewrite Hfetch. reflexivity.
Qed.

(** X2.  When the promise of one [addCollectible] call is rejected, the pass has
    issued every add call, one per reported item that is not ignored, and it
    issues no removal at all, whenever the rejection comes. *)
Theorem rejected_addition_blocks_removals (this resumed : Detector) (picks : list nat)
  (api : list ApiCollectibleResponse) (item : ApiCollectibleResponse) :
  gatesOpen this = true ->
  request this = Body (Some api) ->
  In item api -> isIgnored resumed item = false -> fulfilled item = false ->
  calls (detect this resumed picks) =
    List.map (addCall Number) (List.filter (fun item => negb (isIgnored resumed item)) api)
  /\ (forall a t, ~ In (RemoveCollectible a t) (calls (detect this resumed picks))).
Proof.
  intros Hopen Hreq Hin Hnot Hbad.
  pose proof (rejected_calls this resumed picks api item Hopen
                (request_answered timeoutFetch getOpenSeaApiKey this api Hreq)
                Hin Hnot Hbad) as Hcalls.
  split; [exact Hcalls|].
  intros a t Hrem. rewrite Hcalls in Hrem.
  apply in_map_iff in Hrem as (x & Heq & _). discriminate.
Qed.

End CollectibleOrder.

Section CollectibleIdentity.

Variable Number : string -> JsNumber.
Variable timeoutFetch : string -> option string -> FetchResult.
Variable getOpenSeaApiKey : string.
Variable addCollectible : string -> JsNumber -> CollectibleInformation -> bool -> bool.

Local Abbreviation detect := (detectCollectibles Number timeoutFetch getOpenSeaApiKey addCollectible).
Local Abbreviation fulfilled := (addFulfilled Number addCollectible).
Local Abbreviation isIgnored := (isIgnored Number).
Local Abbreviation reportedBy := (reportedBy Number).
Local Abbreviation request := (ownershipRequest timeoutFetch getOpenSeaApiKey).

Lemma find_never {A} (p : A -> bool) (l : list A) :
  (forall x, p x = false) -> List.find p l = None.
Proof.
  intros Hp. induction l as [|x l IH]; simpl; [reflexivity|]. rewrite Hp. exact IH.
Qed.

Lemma strict_equal_NaN_r (x : JsNumber) : strict_equal x JsNaN = false.
Proof. destruct x; reflexivity. Qed.

(** X3.  A reported item whose token id [Number] turns into [NaN] is taken for a
    new collectible in every pass: no entry of the ignore-list matches it,
    it strikes no removal candidate, and [addCollectible] is called for it
    with the token id [NaN]. *)
Theorem nan_item_always_added (this resumed : Detector) (picks : list nat)
  (api : list ApiCollectibleResponse) (item : ApiCollectibleResponse) :
  gatesOpen this = true ->
  request this = Body (Some api) ->
  In item api ->
  Number (token_id item) = JsNaN ->
  isIgnored resumed item = false
  /\ (forall l, strike Number item l = l)
  /\ In (AddCollectible (asset_address item) JsNaN
           {| info_description := api_description item;
              info_image := image_original_url item;
              info_name := api_name item |} true)
        (calls (detect this resumed picks)).
Proof.
  intros Hopen Hreq Hin Hnan.
  assert (Hnot : isIgnored resumed item = false).
  { unfold isIgnored, ignoredCollectible. rewrite Hnan.
    destruct (0 <? _)%nat; [|reflexivity].
    rewrite find_never; [reflexivity|].
    intros c. rewrite strict_equal_NaN_r. apply andb_false_r. }
  split; [exact Hnot|]. split.
  - intros l. unfold strike. apply filter_all. intros c.
    unfold reported. rewrite Hnan, strict_equal_NaN_r. reflexivity.
  - destruct (detect_add_calls Number timeoutFetch getOpenSeaApiKey addCollectible
                this resumed picks api Hopen
                (request_answered timeoutFetch getOpenSeaApiKey this api Hreq))
      as (removed & -> & _).
    apply in_or_app. left.
    replace (AddCollectible _ _ _ _) with (addCall Number item)
      by (unfold addCall; rewrite Hnan; reflexivity).
    apply in_map. apply filter_In. split; [exact Hin|]. rewrite Hnot. reflexivity.
Qed.

Lemma existsb_never {A} (p : A -> bool) (l : list A) :
  (forall x, p x = false) -> existsb p l = false.
Proof.
  intros Hp. induction l as [|x l IH]; simpl; [reflexivity|]. rewrite Hp. exact IH.
Qed.

(** X4.  A tracked collectible whose stored token id is [NaN] matches no reported
    item, so every pass that comes to its removal step removes it, whatever
    the marketplace reports. *)
Theorem nan_collectible_always_removed (this resumed : Detector) (picks : list nat)
  (api : list ApiCollectibleResponse) (c : Collectible) :
  gatesOpen this = true ->
  request this = Body (Some api) ->
  (forall item, In item api -> isIgnored resumed item = false -> fulfilled item = true) ->
  In c (collectibles (assetsState this)) ->
  tokenId c = JsNaN ->
  reportedBy api c = false
  /\ In (RemoveCollectible (address c) JsNaN) (calls (detect this resumed picks)).
Proof.
  intros Hopen Hreq Hall Htracked Hnan.
  assert (Hnot : reportedBy api c = false).
  { unfold reportedBy. apply existsb_never. intros item.
    unfold reported. rewrite Hnan. reflexivity. }
  split; [exact Hnot|].
  rewrite (detect_calls Number timeoutFetch getOpenSeaApiKey addCollectible
             this resumed picks api Hopen
             (request_answered timeoutFetch getOpenSeaApiKey this api Hreq) Hall).
  apply in_or_app. right.
  replace (RemoveCollectible (address c) JsNaN) with (removalOf c)
    by (unfold removalOf; rewrite Hnan; reflexivity).
  apply in_map. apply filter_In. split; [exact Htracked|]. rewrite Hnot. reflexivity.
Qed.

End CollectibleIdentity.

Lemma nan_item_always_added_witness :
  In (AddCollectible lowerAddress JsNaN oddInformation true)
     (calls (collectiblePassOn (answers [oddReported]) (tracking [] []))).
Proof.
  apply (proj2 (proj2 (nan_item_always_added NumberOfDigits (answers [oddReported]) ""
                         alwaysFulfilled (tracking [] []) (tracking [] []) []
                         [oddReported] oddReported eq_refl eq_refl
                         (or_introl eq_refl) eq_refl))).
Defined.

Lemma nan_collectible_always_removed_witness :
  In (RemoveCollectible checksumAddress JsNaN)
     (calls (collectiblePassOn (answers [oddReported]) (tracking [oddStored] []))).
Proof.
  apply (proj2 (nan_collectible_always_removed NumberOfDigits (answers [oddReported]) ""
                  alwaysFulfilled (tracking [oddStored] []) (tracking [oddStored] []) []
                  [oddReported] oddStored eq_refl eq_refl (fun _ _ _ => eq_refl)
                  (or_introl eq_refl) eq_refl)).
Defined.

Lemma rejected_addition_blocks_removals_witness :
  calls (detectCollectibles NumberOfDigits (answers [puppyReported]) "" alwaysRejected
           (tracking [kitty] []) (tracking [kitty] []) [])
  = [AddCollectible lowerAddress (JsNum 6) puppyInformation true].
Proof.
  apply (proj1 (rejected_addition_blocks_removals NumberOfDigits (answers [puppyReported]) ""
                  alwaysRejected (tracking [kitty] []) (tracking [kitty] []) []
                  [puppyReported] puppyReported eq_refl eq_refl
                  (or_introl eq_refl) eq_refl eq_refl)).
Defined.

(* ===================================================================== *)
(** ** Checksum form and the comparisons of the passes *)

Lemma lower_upper_lower (c : ascii) :
  lower_char (upper_char (lower_char c)) = lower_char c.
Proof. destruct c as [[] [] [] [] [] [] [] []]; reflexivity. Qed.

Lemma lower_lower (c : ascii) : lower_char (lower_char c) = lower_char c.
Proof. destruct c as [[] [] [] [] [] [] [] []]; reflexivity. Qed.

Lemma lower_checksum_chars (xs : list ascii) :
  forall hash,
    List.map lower_char (checksum_chars (List.map lower_char xs) hash)
    = List.map lower_char xs.
Proof.
  induction xs as [|c xs IH]; intros hash; simpl; [reflexivity|].
  destruct hash as [|h hash]; simpl.
  - rewrite lower_lower, IH. reflexivity.
  - destruct (hash_digit_high h);
      rewrite ?lower_upper_lower, ?lower_lower, IH; reflexivity.
Qed.

(** The checksum form of an address is a casing of that address. *)
Lemma toLowerCase_toChecksumAddress (a : string) :
  toLowerCase (stripHexPrefix (toChecksumAddress a)) = toLowerCase (stripHexPrefix a).
Proof.
  unfold toChecksumAddress. cbn [stripHexPrefix].
  unfold toLowerCase at 1.
  rewrite list_ascii_of_string_of_list_ascii.
  unfold toLowerCase at 1 3.
  rewrite list_ascii_of_string_of_list_ascii.
  rewrite lower_checksum_chars. reflexivity.
Qed.

Lemma toChecksumAddress_idempotent (a : string) :
  toChecksumAddress (toChecksumAddress a) = toChecksumAddress a.
Proof. apply toChecksumAddress_casing. apply toLowerCase_toChecksumAddress. Qed.

(** X5.  A record stored under the checksum form of an address is found again
    whether the address is fetched as it is stored or in another casing: the
    lookup in the token ignore-list finds the ignored token, and a reported
    item with the stored token id matches the stored collectible and is
    found in the collectible ignore-list. *)
Theorem stored_checksum_form_is_matched (Number : string -> JsNumber)
  (a fetched : string) :
  fetched = toChecksumAddress a
  \/ toLowerCase (stripHexPrefix fetched) = toLowerCase (stripHexPrefix a) ->
  (forall this t,
      In t (ignoredTokens (assetsState this)) ->
      token_address t = toChecksumAddress a ->
      isIgnoredToken this fetched = true)
  /\ (forall item c v,
         asset_address item = fetched ->
         address c = toChecksumAddress a ->
         tokenId c = JsNum v ->
         Number (token_id item) = JsNum v ->
         reported Number item c = true
         /\ forall this, In c (ignoredCollectibles (assetsState this)) ->
                         isIgnored Number this item = true).
Proof.
  intros Hfetched.
  assert (Hsum : toChecksumAddress fetched = toChecksumAddress a).
  { destruct Hfetched as [-> | Hcase].
    - apply toChecksumAddress_idempotent.
    - apply toChecksumAddress_casing. exact Hcase. }
  split.
  - intros this t Hin Ht. unfold isIgnoredToken, ignoredToken. rewrite Hsum.
    destruct (ignoredTokens (assetsState this)) as [|t0 l] eqn:Hl; [destruct Hin|].
    simpl (0 <? _)%nat. cbv iota.
    destruct (List.find _ (t0 :: l)) eqn:Hfind; [reflexivity|].
    pose proof (find_none _ _ Hfind t Hin) as Hno. simpl in Hno.
    rewrite Ht, String.eqb_refl in Hno. discriminate.
  - intros item c v Haddr Hc Hid Hnum.
    assert (Hrep : reported Number item c = true).
    { unfold reported. rewrite Hid, Hnum, Haddr, Hsum, Hc. simpl.
      rewrite Z.eqb_refl, String.eqb_refl. reflexivity. }
    split; [exact Hrep|].
    intros this Hin. unfold isIgnored, ignoredCollectible.
    destruct (ignoredCollectibles (assetsState this)) as [|c0 l] eqn:Hl; [destruct Hin|].
    simpl (0 <? _)%nat. cbv iota.
    destruct (List.find _ (c0 :: l)) eqn:Hfind; [reflexivity|].
    pose proof (find_none _ _ Hfind c Hin) as Hno. simpl in Hno.
    rewrite Haddr, Hsum, Hc, Hid, Hnum, String.eqb_refl in Hno. simpl in Hno.
    rewrite Z.eqb_refl in Hno. discriminate.
Qed.

Lemma stored_checksum_form_is_matched_witness :
  reported NumberOfDigits kittyReported kitty = true.
Proof.
  refine (proj1 (proj2 (stored_checksum_form_is_matched NumberOfDigits upperAddress
                          lowerAddress (or_intror _))
                   kittyReported kitty 5 eq_refl _ eq_refl eq_refl));
    vm_compute; reflexivity.
Defined.

(* ===================================================================== *)
(** ** More on the token pass *)

Lemma string_of_index_not_prefixed (i : nat) (rest : string) :
  string_of_index i <> String "0" (String "x" rest).
Proof.
  unfold string_of_index. intros Heq.
  pose proof (NilZero.usu (Nat.to_uint i) (to_uint_not_Nil i)) as Hparse.
  rewrite Heq in Hparse. simpl in Hparse.
  destruct (NilEmpty.uint_of_string rest); discriminate.
Qed.

(** No array has a property named like a [0x] address. *)
Lemma in_array_prefixed {A} (rest : string) (arr : list A) :
  in_array (String "0" (String "x" rest)) arr = false.
Proof.
  unfold in_array.
  replace (existsb _ (seq 0 (List.length arr))) with false; [reflexivity|].
  symmetry. apply existsb_never. intros i.
  apply String.eqb_neq. intros Heq. symmetry in Heq.
  exact (string_of_index_not_prefixed i rest Heq).
Qed.

Section TokenExtras.

Variable contractMap : list (string * ContractEntry).
Variable getAssetContractBalancesInSingleCall :
  string -> list string -> outcome (list (string * Z)).

Local Abbreviation detect := (detectTokens contractMap getAssetContractBalancesInSingleCall).
Local Abbreviation stage := (stageTokens contractMap).

(** X6.  For a registry keyed by [0x] addresses, the candidates of the token pass
    are the addresses of all its ERC-20 entries, in the order of the
    registry, whatever tokens the configuration tracks: the test
    [address in tokensAddresses] holds for no address. *)
Theorem candidates_are_all_erc20_entries (this : Detector) :
  (forall address contract, In (address, contract) contractMap ->
                            exists rest, address = String "0" (String "x" rest)) ->
  tokensToDetect contractMap this
  = List.map fst (List.filter (fun entry => erc20 (snd entry)) contractMap).
Proof.
  intros Hkeys. unfold tokensToDetect. f_equal.
  induction contractMap as [|[address contract] l IH]; simpl; [reflexivity|].
  destruct (Hkeys address contract (or_introl eq_refl)) as (rest & ->).
  rewrite in_array_prefixed, andb_true_r.
  rewrite IH; [reflexivity|].
  intros a c Hin. apply (Hkeys a c). right. exact Hin.
Qed.

(** The batch staged for the keys of a balance map: one record per key that
    is not ignored, in the order of the map. *)
Lemma stageTokens_exact (resumed : Detector) (keys : list string) :
  forall acc,
    (forall k, In k keys -> isIgnoredToken resumed k = false -> get contractMap k <> None) ->
    stage resumed keys acc
    = Returned
        (acc ++
         flat_map
           (fun k =>
              if isIgnoredToken resumed k then []
              else match get contractMap k with
                   | Some contract => [stagedToken k contract]
                   | None => []
                   end)
           keys).
Proof.
  unfold isIgnoredToken.
  induction keys as [|k keys IH]; intros acc Hreg; simpl.
  - rewrite app_nil_r. reflexivity.
  - assert (Hrest : forall k', In k' keys ->
                      match ignoredToken resumed k' with Some _ => true | None => false end
                      = false -> get contractMap k' <> None).
    { intros k' Hin. apply Hreg. right. exact Hin. }
    destruct (ignoredToken resumed k) as [found|] eqn:Hign.
    + rewrite (IH acc Hrest). reflexivity.
    + destruct (get contractMap k) as [contract|] eqn:Hget.
      * rewrite (IH _ Hrest), <- app_assoc. reflexivity.
      * exfalso. apply (Hreg k); [left; reflexivity | | exact Hget].
        rewrite Hign. reflexivity.
Qed.

Lemma stageTokens_throws (resumed : Detector) (keys : list string) :
  forall acc,
    (exists k, In k keys /\ isIgnoredToken resumed k = false /\ get contractMap k = None) ->
    stage resumed keys acc = Threw.
Proof.
  unfold isIgnoredToken.
  induction keys as [|k keys IH]; intros acc (bad & Hin & Hnot & Hnone); [destruct Hin|].
  simpl. destruct Hin as [-> | Hin].
  - destruct (ignoredToken resumed bad); [discriminate|]. rewrite Hnone. reflexivity.
  - assert (Hbad : exists k', In k' keys
                     /\ match ignoredToken resumed k' with Some _ => true | None => false end
                        = false
                     /\ get contractMap k' = None) by (exists bad; tauto).
    destruct (ignoredToken resumed k); [apply IH; exact Hbad|].
    destruct (get contractMap k); [apply IH; exact Hbad | reflexivity].
Qed.

(** X7.  With the gates open, a balance map whose keys, as far as they are not
    ignored, are all in the registry makes the pass add one batch: one record
    per key that is not ignored, in the order of the map, under the address
    as the map spells it, with the symbol and decimals of the registry; the
    pass issues no call when the batch is empty.  An ignored key need not be
    in the registry. *)
Theorem staged_batch_follows_balances (this resumed : Detector)
  (balances : list (string * Z)) :
  gatesOpen this = true ->
  getAssetContractBalancesInSingleCall (selectedAddress (config this))
    (tokensToDetect contractMap this) = Returned balances ->
  (forall k, In k (List.map fst balances) -> isIgnoredToken resumed k = false ->
             get contractMap k <> None) ->
  let batch :=
    flat_map
      (fun k =>
         if isIgnoredToken resumed k then []
         else match get contractMap k with
              | Some contract => [stagedToken k contract]
              | None => []
              end)
      (List.map fst balances) in
  detect this resumed = match batch with [] => [] | _ :: _ => [AddTokens batch] end.
Proof.
  intros Hopen Hfetch Hreg batch. unfold gatesOpen in Hopen.
  apply andb_prop in Hopen as [Hmain Haddr].
  unfold detectTokens, safelyExecute, stageAndAdd.
  rewrite Hmain, Haddr. simpl. rewrite Hfetch.
  rewrite (stageTokens_exact resumed (List.map fst balances) [] Hreg). simpl.
  fold batch. destruct batch; reflexivity.
Qed.

(** X8.  One key of the balance map that is a [0x] address, is not ignored
    and is not in the registry makes the whole pass fail: no inherited
    property has such a name, so the registry lookup is [undefined], reading
    its decimals throws, and no token is added, not even the tokens staged
    for the other keys. *)
Theorem unknown_address_voids_the_batch (this resumed : Detector)
  (balances : list (string * Z)) (unknown rest : string) :
  getAssetContractBalancesInSingleCall (selectedAddress (config this))
    (tokensToDetect contractMap this) = Returned balances ->
  unknown = String "0" (String "x" rest) ->
  In unknown (List.map fst balances) ->
  isIgnoredToken resumed unknown = false ->
  get contractMap unknown = None ->
  detect this resumed = [].
Proof.
  intros Hfetch _ Hin Hnot Hnone. unfold detectTokens, safelyExecute, stageAndAdd.
  destruct (negb (isMainnet this)); [reflexivity|].
  destruct (negb (truthy _)); [reflexivity|]. simpl.
  rewrite Hfetch, (stageTokens_throws resumed (List.map fst balances) []); [reflexivity|].
  exists unknown. tauto.
Qed.

End TokenExtras.

Lemma candidates_are_all_erc20_entries_witness :
  tokensToDetect registry (ignoringTokens [token checksumAddress] [])
  = List.map fst (List.filter (fun entry => erc20 (snd entry)) registry).
Proof.
  apply (candidates_are_all_erc20_entries registry
           (ignoringTokens [token checksumAddress] [])).
  intros a c [Heq | []]. injection Heq as <- _. eexists. reflexivity.
Defined.

Lemma staged_batch_follows_balances_witness :
  detectTokens registry (balancesOf [(checksumAddress, 5); (ownerAddress, 7)])
    (ignoringTokens [] []) (ignoringTokens [] [token ownerAddress])
  = [AddTokens [token checksumAddress]].
Proof.
  apply (staged_batch_follows_balances registry
           (balancesOf [(checksumAddress, 5); (ownerAddress, 7)])
           (ignoringTokens [] []) (ignoringTokens [] [token ownerAddress])
           [(checksumAddress, 5); (ownerAddress, 7)] eq_refl eq_refl).
  intros k [<- | [<- | []]]; vm_compute; discriminate.
Defined.

Lemma unknown_address_voids_the_batch_witness :
  detectTokens registry (balancesOf [(checksumAddress, 5); (ownerAddress, 7)])
    (ignoringTokens [] []) (ignoringTokens [] [])
  = [].
Proof.
  apply (unknown_address_voids_the_batch registry
           (balancesOf [(checksumAddress, 5); (ownerAddress, 7)])
           (ignoringTokens [] []) (ignoringTokens [] [])
           [(checksumAddress, 5); (ownerAddress, 7)] ownerAddress
           "fB6916095ca1df60bB79Ce92cE3Ea74c37c5d359" eq_refl eq_refl).
  - right. left. reflexivity.
  - vm_compute. reflexivity.
  - vm_compute. reflexivity.
Defined.

(* ===================================================================== *)
(** ** More on polling *)

Lemma pendingAfter_app (pending : list nat) (e1 e2 : list Effect) :
  pendingAfter pending (e1 ++ e2) = pendingAfter (pendingAfter pending e1) e2.
Proof. unfold pendingAfter. apply fold_left_app. Qed.

Lemma pendingAfter_detectAssets (pending : list nat) (this : Detector) :
  pendingAfter pending (detectAssets this) = pending.
Proof. unfold detectAssets. destruct (negb (isMainnet this)); reflexivity. Qed.

Lemma pendingAfter_clear (h : nat) : pendingAfter [h] [ClearTimeout h] = [].
Proof. unfold pendingAfter. simpl. rewrite Nat.eqb_refl. reflexivity. Qed.

(** One timer is pending before and after each input: the one in
    [handle]. *)
Lemma one_timer_step (c : Controller) (input : Input) (h : nat) :
  handle c = Some h -> nextTimer c = S h ->
  exists h',
    handle (fst (react c input)) = Some h'
    /\ nextTimer (fst (react c input)) = S h'
    /\ pendingAfter [h] (snd (react c input)) = [h'].
Proof.
  intros Hh Hnext. destruct input; simpl.
  - exists (S h). unfold poll. cbn [fst snd handle nextTimer]. rewrite Hh, Hnext.
    split; [reflexivity|]. split; [reflexivity|].
    rewrite pendingAfter_app, pendingAfter_clear.
    rewrite pendingAfter_app, pendingAfter_detectAssets. reflexivity.
  - exists h. unfold onPreferencesStateChange. destruct (negb _); simpl.
    + rewrite pendingAfter_detectAssets. repeat split; assumption.
    + repeat split; assumption.
  - exists h. repeat split; assumption.
  - exists h. repeat split; assumption.
Qed.

Lemma one_timer_run (inputs : list Input) :
  forall (c : Controller) (h : nat),
    handle c = Some h -> nextTimer c = S h ->
    exists h',
      handle (fst (run c inputs)) = Some h'
      /\ nextTimer (fst (run c inputs)) = S h'
      /\ pendingAfter [h] (snd (run c inputs)) = [h'].
Proof.
  induction inputs as [|input inputs IH]; intros c h Hh Hnext; simpl.
  - exists h. repeat split; assumption.
  - destruct (one_timer_step c input h Hh Hnext) as (h1 & Hh1 & Hnext1 & Hpend1).
    destruct (react c input) as [c1 effects1]. simpl in *.
    destruct (IH c1 h1 Hh1 Hnext1) as (h2 & Hh2 & Hnext2 & Hpend2).
    destruct (run c1 inputs) as [c2 effects2]. simpl in *.
    exists h2. rewrite pendingAfter_app, Hpend1. repeat split; assumption.
Qed.

(** X9.  From the start on and whatever the events, exactly one timer is armed
    and not cleared after each event, and it is the one the controller keeps
    in [handle]: [poll] never leaves a second timer running. *)
Theorem one_pending_timer (this : Detector) (inputs : list Input) :
  exists h,
    handle (fst (run (fst (start this)) inputs)) = Some h
    /\ pendingAfter [] (snd (start this) ++ snd (run (fst (start this)) inputs)) = [h].
Proof.
  destruct (one_timer_run inputs (fst (start this)) 0%nat eq_refl eq_refl)
    as (h & Hh & _ & Hpend).
  exists h. split; [exact Hh|].
  rewrite pendingAfter_app.
  replace (pendingAfter [] (snd (start this))) with [0%nat]; [exact Hpend|].
  unfold start, poll. simpl. rewrite pendingAfter_app, pendingAfter_detectAssets.
  reflexivity.
Qed.

Lemma react_disabled (c : Controller) (input : Input) :
  disabled (detector (fst (react c input))) = disabled (detector c).
Proof.
  destruct input; simpl; try reflexivity.
  - unfold poll. simpl. destruct (_ =? 0); reflexivity.
  - unfold onPreferencesStateChange. destruct (negb _); reflexivity.
Qed.

Lemma isMainnet_disabled (this : Detector) : disabled this = true -> isMainnet this = false.
Proof. unfold isMainnet. intros ->. rewrite orb_true_r. reflexivity. Qed.

Lemma react_off_mainnet (c : Controller) (input : Input) :
  isMainnet (detector c) = false ->
  switchesToMainnet input = false ->
  isMainnet (detector (fst (react c input))) = false
  /\ forallb is_timer_effect (snd (react c input)) = true.
Proof.
  intros Hoff Hinput. destruct input; simpl in *.
  - unfold poll. simpl.
    assert (Hsame : isMainnet
                      (if interval (config (detector c)) =? 0 then detector c
                       else configure_interval (interval (config (detector c))) (detector c))
                    = false).
    { destruct (_ =? 0); [exact Hoff|]. exact Hoff. }
    split; [exact Hsame|].
    rewrite !forallb_app. unfold detectAssets. rewrite Hsame. simpl.
    destruct (handle c); reflexivity.
  - unfold onPreferencesStateChange. destruct (negb _); simpl.
    + split; [exact Hoff|]. unfold detectAssets.
      change (isMainnet (configure_selectedAddress selected (detector c)))
        with (isMainnet (detector c)).
      rewrite Hoff. reflexivity.
    + split; [exact Hoff | reflexivity].
  - split; [|reflexivity]. unfold isMainnet. simpl.
    unfold MAINNET in *. rewrite Hinput. reflexivity.
  - split; [exact Hoff | reflexivity].
Qed.

Lemma run_off_mainnet (inputs : list Input) :
  forall c,
    isMainnet (detector c) = false ->
    forallb (fun input => negb (switchesToMainnet input)) inputs = true ->
    forallb is_timer_effect (snd (run c inputs)) = true.
Proof.
  induction inputs as [|input inputs IH]; intros c Hoff Hinputs; simpl; [reflexivity|].
  simpl in Hinputs. apply andb_prop in Hinputs as [Hinput Hrest].
  apply negb_true_iff in Hinput.
  destruct (react_off_mainnet c input Hoff Hinput) as (Hoff1 & Heffects1).
  destruct (react c input) as [c1 effects1]. simpl in *.
  specialize (IH c1 Hoff1 Hrest). destruct (run c1 inputs) as [c2 effects2]. simpl in *.
  rewrite forallb_app, Heffects1, IH. reflexivity.
Qed.

Lemma run_disabled (inputs : list Input) :
  forall c,
    disabled (detector c) = true ->
    forallb is_timer_effect (snd (run c inputs)) = true.
Proof.
  induction inputs as [|input inputs IH]; intros c Hdis; simpl; [reflexivity|].
  pose proof (react_disabled c input) as Hkeep.
  assert (Heffects : forallb is_timer_effect (snd (react c input)) = true).
  { pose proof (isMainnet_disabled (detector c) Hdis) as Hoff.
    destruct input; simpl.
    - unfold poll. simpl. rewrite !forallb_app. unfold detectAssets.
      rewrite isMainnet_disabled by (destruct (_ =? 0); exact Hdis). simpl.
      destruct (handle c); reflexivity.
    - unfold onPreferencesStateChange. destruct (negb _); simpl; [|reflexivity].
      unfold detectAssets. rewrite isMainnet_disabled by exact Hdis. reflexivity.
    - reflexivity.
    - reflexivity. }
  destruct (react c input) as [c1 effects1]. simpl in *.
  rewrite Hdis in Hkeep. specialize (IH c1 Hkeep).
  destruct (run c1 inputs) as [c2 effects2]. simpl in *.
  rewrite forallb_app, Heffects, IH. reflexivity.
Qed.

(** X10.  A controller that is disabled, or that is off mainnet and is not told of
    a switch to mainnet, starts no pass, whatever events it receives: timers
    firing, account changes, asset changes; it only keeps its timer going. *)
Theorem no_detection_when_off (c : Controller) (inputs : list Input) :
  disabled (detector c) = true
  \/ (String.eqb (networkType (config (detector c))) MAINNET = false
      /\ forallb (fun input => negb (switchesToMainnet input)) inputs = true) ->
  forallb is_timer_effect (snd (run c inputs)) = true.
Proof.
  intros [Hdis | (Hnet & Hinputs)].
  - apply run_disabled. exact Hdis.
  - apply run_off_mainnet; [|exact Hinputs].
    unfold isMainnet. rewrite Hnet. reflexivity.
Qed.

(** X11.  An account-change event that names the account already selected does
    nothing; so of two notifications in a row for the same account, the
    second starts no detection and changes nothing. *)
Theorem repeated_account_change_is_silent (c : Controller) (selected : string) :
  react (fst (react c (PreferencesStateChange selected))) (PreferencesStateChange selected)
  = (fst (react c (PreferencesStateChange selected)), []).
Proof.
  simpl. unfold onPreferencesStateChange at 2 3.
  destruct (String.eqb selected (selectedAddress (config (detector c)))) eqn:Hsame; simpl.
  - unfold onPreferencesStateChange. rewrite Hsame. reflexivity.
  - unfold onPreferencesStateChange. simpl. rewrite String.eqb_refl. reflexivity.
Qed.

Lemma no_detection_when_off_witness :
  forallb is_timer_effect
    (snd (run (fst (start (configure_networkType "ropsten" (tracking [kitty] []))))
            [TimerFired; PreferencesStateChange lowerAddress; TimerFired]))
  = true.
Proof.
  apply (no_detection_when_off
           (fst (start (configure_networkType "ropsten" (tracking [kitty] []))))
           [TimerFired; PreferencesStateChange lowerAddress; TimerFired]).
  right. split; reflexivity.
Defined.

(* ===================================================================== *)
(** ** More on TokenBalancesController *)

Section BalanceExtras.

Variable getBalanceOfAssetContract : string -> string -> BalanceResult.

Local Abbreviation loop := (updateLoop getBalanceOfAssetContract).
Local Abbreviation update := (updateBalances getBalanceOfAssetContract).
Local Abbreviation recorded := (recordedBalance getBalanceOfAssetContract).
Local Abbreviation recordedErr := (recordedError getBalanceOfAssetContract).

Lemma loop_addresses (selected : string) (tokens : list Token) (m : gmap string Balance) :
  List.map token_address (fst (loop selected tokens m)) = List.map token_address tokens.
Proof.
  destruct (updateLoop_spec getBalanceOfAssetContract selected tokens m) as (_ & _ & ->).
  rewrite List.map_map. reflexivity.
Qed.

Lemma loop_balances_from_empty (selected : string) (tokens : list Token) (a : string) :
  snd (loop selected tokens ∅) !! a
  = if in_dec string_dec a (List.map token_address tokens)
    then Some (recorded selected a) else None.
Proof.
  destruct (updateLoop_spec getBalanceOfAssetContract selected tokens ∅) as (Hin & Hout & _).
  destruct (in_dec string_dec a _) as [Ha | Ha].
  - apply Hin. exact Ha.
  - rewrite (Hout a Ha). apply lookup_empty.
Qed.

Lemma update_dom (this : TokenBalances) :
  tb_disabled this = false ->
  dom (contractBalances (update this)) = list_to_set (List.map token_address (tb_tokens this)).
Proof.
  intros Henabled. unfold updateBalances. rewrite Henabled.
  pose proof (loop_balances_from_empty (tb_selectedAddress this) (tb_tokens this)) as Hlook.
  destruct (loop (tb_selectedAddress this) (tb_tokens this) ∅) as [tokens' m].
  simpl in *. apply set_eq. intros a.
  rewrite elem_of_dom, elem_of_list_to_set, list_elem_of_In, Hlook.
  destruct (in_dec string_dec a _) as [Ha | Ha].
  - split; [intros _; exact Ha | intros _; eexists; reflexivity].
  - split; [intros [? ?]; discriminate | contradiction].
Qed.

Lemma update_enabled (this : TokenBalances) :
  tb_disabled this = false ->
  update this
  = {| tb_disabled := tb_disabled this;
       tb_tokens :=
         List.map (fun t => set_balanceError
                              (recordedErr (tb_selectedAddress this) (token_address t)) t)
           (tb_tokens this);
       tb_selectedAddress := tb_selectedAddress this;
       contractBalances := snd (loop (tb_selectedAddress this) (tb_tokens this) ∅) |}.
Proof.
  intros Henabled. unfold updateBalances. rewrite Henabled.
  destruct (updateLoop_spec getBalanceOfAssetContract (tb_selectedAddress this)
              (tb_tokens this) ∅) as (_ & _ & Htokens).
  destruct (loop (tb_selectedAddress this) (tb_tokens this) ∅) as [tokens' m].
  simpl in *. rewrite Htokens. reflexivity.
Qed.

(** X12.  Updating the balances twice in a row, the fetches answering alike, gives
    what updating once gives: the same balances, the same error marks. *)
Theorem updateBalances_idempotent (this : TokenBalances) :
  update (update this) = update this.
Proof.
  destruct (tb_disabled this) eqn:Hdis.
  - unfold updateBalances. rewrite Hdis. simpl. rewrite Hdis. reflexivity.
  - rewrite (update_enabled this Hdis).
    rewrite update_enabled by exact Hdis.
    cbn [tb_disabled tb_tokens tb_selectedAddress]. f_equal.
    + rewrite List.map_map. apply List.map_ext. intros t. reflexivity.
    + apply map_eq. intros a. rewrite !loop_balances_from_empty.
      rewrite List.map_map. reflexivity.
Qed.

(** X13.  The two listeners of the constructor.  A change of the tracked tokens
    updates the balances at once: unless the controller is disabled, the
    entries are then exactly those of the new tokens, and the entry of a
    token that is no longer tracked is gone.  A change of the selected
    account only stores the address: the balances stay those fetched for the
    account selected before, until the next update fetches for the new
    one. *)
Theorem balance_listeners (this : TokenBalances) (ts : list Token) (selected : string) :
  tb_disabled this = false ->
  dom (contractBalances (balancesOnAssetStateChange getBalanceOfAssetContract ts this))
    = list_to_set (List.map token_address ts)
  /\ contractBalances (balancesOnPreferencesStateChange selected this) = contractBalances this
  /\ (forall t, In t (tb_tokens this) ->
        contractBalances (update (balancesOnPreferencesStateChange selected this))
          !! token_address t
        = Some (recorded selected (token_address t))).
Proof.
  intros Henabled. split; [|split].
  - unfold balancesOnAssetStateChange. rewrite update_dom by exact Henabled. reflexivity.
  - reflexivity.
  - intros t Ht. unfold updateBalances, balancesOnPreferencesStateChange.
    cbn [tb_disabled tb_tokens tb_selectedAddress]. rewrite Henabled.
    pose proof (loop_balances_from_empty selected (tb_tokens this) (token_address t)) as Hlook.
    destruct (loop selected (tb_tokens this) ∅) as [tokens' m]. simpl in *.
    rewrite Hlook. destruct (in_dec string_dec _ _) as [_ | Hnot]; [reflexivity|].
    exfalso. apply Hnot. apply in_map. exact Ht.
Qed.

(** X14.  When the tokens of the configuration have distinct addresses, the
    updated [contractBalances] has as many entries as there are tokens. *)
Theorem one_balance_per_distinct_address (this : TokenBalances) :
  tb_disabled this = false ->
  List.NoDup (List.map token_address (tb_tokens this)) ->
  size (contractBalances (update this)) = List.length (tb_tokens this).
Proof.
  intros Henabled Hnodup.
  rewrite <- size_dom, (update_dom this Henabled).
  rewrite size_list_to_set by (apply NoDup_ListNoDup; exact Hnodup).
  apply List.length_map.
Qed.

End BalanceExtras.

Lemma balance_listeners_witness :
  dom (contractBalances (balancesOnAssetStateChange failingOnce [token lowerAddress]
                           staleBalances))
  = list_to_set (List.map token_address [token lowerAddress]).
Proof.
  apply (proj1 (balance_listeners failingOnce staleBalances [token lowerAddress]
                  lowerAddress eq_refl)).
Defined.

Lemma one_balance_per_distinct_address_witness :
  size (contractBalances (updateBalances failingOnce twoTokens)) = 2%nat.
Proof.
  apply (one_balance_per_distinct_address failingOnce twoTokens eq_refl).
  repeat constructor; simpl; intros H; repeat destruct H as [H | H]; try discriminate; auto.
Defined.

(* ===================================================================== *)
(** ** More on ComposableController *)

Section CompositionRunFacts.

Variable ChildState : Type.

Local Abbreviation Child := (Child ChildState).
Local Abbreviation Composable := (Composable ChildState).
Local Abbreviation publish := (publish ChildState).
Local Abbreviation publishAll := (publishAll ChildState).
Local Abbreviation construct := (construct ChildState).
Local Abbreviation lastPublishedBy := (lastPublishedBy ChildState).
Local Abbreviation lastPublishedUnder := (lastPublishedUnder ChildState).

Lemma publishAll_snoc (published : list (nat * ChildState)) (i : nat) (s : ChildState)
  (this : Composable) :
  publishAll (published ++ [(i, s)]) this = publish i s (publishAll published this).
Proof. unfold publishAll. rewrite fold_left_app. reflexivity. Qed.

Lemma lastPublishedBy_snoc (published : list (nat * ChildState)) (i j : nat) (s : ChildState) :
  lastPublishedBy i (published ++ [(j, s)])
  = if Nat.eqb j i then Some s else lastPublishedBy i published.
Proof. unfold lastPublishedBy. rewrite fold_left_app. reflexivity. Qed.

Lemma lastPublishedUnder_snoc (children : list Child) (key : string)
  (published : list (nat * ChildState)) (j : nat) (s : ChildState) :
  lastPublishedUnder children key (published ++ [(j, s)])
  = match children !! j with
    | Some controller =>
        if String.eqb (child_name _ controller) key then Some s
        else lastPublishedUnder children key published
    | None => lastPublishedUnder children key published
    end.
Proof. unfold lastPublishedUnder. rewrite fold_left_app. reflexivity. Qed.

Lemma publish_length (i : nat) (s : ChildState) (this : Composable) :
  List.length (controllers _ (publish i s this)) = List.length (controllers _ this).
Proof.
  unfold publish. destruct (controllers _ this !! i); [|reflexivity].
  simpl. apply length_insert.
Qed.

Lemma publishAll_length (published : list (nat * ChildState)) (this : Composable) :
  List.length (controllers _ (publishAll published this)) = List.length (controllers _ this).
Proof.
  induction published as [|[j s] published IH] using rev_ind; [reflexivity|].
  rewrite publishAll_snoc, publish_length. exact IH.
Qed.

(** The children after any notifications: each keeps its name and holds the
    last state it published, or its first state if it published none. *)
Lemma publishAll_children (children : list Child) (published : list (nat * ChildState)) :
  forall i c,
    children !! i = Some c ->
    controllers _ (publishAll published (construct children)) !! i
    = Some {| child_name := child_name _ c;
              child_state := match lastPublishedBy i published with
                             | Some s => s
                             | None => child_state _ c
                             end |}.
Proof.
  induction published as [|[j s] published IH] using rev_ind; intros i c Hi.
  - simpl. rewrite Hi. destruct c. reflexivity.
  - rewrite publishAll_snoc, lastPublishedBy_snoc. unfold publish.
    destruct (children !! j) as [cj|] eqn:Hj.
    + rewrite (IH j cj Hj). cbn [controllers update child_name].
      destruct (Nat.eqb_spec j i) as [-> | Hne].
      * rewrite Hi in Hj. injection Hj as <-.
        apply list_lookup_insert_eq.
        apply (lookup_lt_Some _ _ _ (IH i c Hi)).
      * rewrite list_lookup_insert_ne by exact Hne. apply IH. exact Hi.
    + assert (Hnone : controllers _ (publishAll published (construct children)) !! j = None).
      { apply lookup_ge_None. rewrite publishAll_length. simpl.
        apply lookup_ge_None. exact Hj. }
      rewrite Hnone.
      destruct (Nat.eqb_spec j i) as [-> | Hne]; [congruence|].
      apply IH. exact Hi.
Qed.

(** X15.  Whatever the children have published, [flatState] holds under the
    position of each child the last state that child published, or the state
    it had at construction if it published none. *)
Theorem flatState_follows_children (children : list Child)
  (published : list (nat * ChildState)) (i : nat) (c : Child) :
  children !! i = Some c ->
  flatState _ (publishAll published (construct children)) !! string_of_index i
  = Some match lastPublishedBy i published with
         | Some s => s
         | None => child_state _ c
         end.
Proof.
  intros Hi. unfold flatState.
  pose proof (publishAll_children children published i c Hi) as Hchild.
  apply (entries_fold_index ChildState _ 0%nat ∅ i _ Hchild).
Qed.

(** X16.  The composed state after any notifications: the entry under a key is the
    last state published by a child of that name; under a key no child has
    published, the entry is still the one of the construction, which is
    keyed by positions. *)
Theorem composed_state_after_notifications (children : list Child)
  (published : list (nat * ChildState)) (key : string) :
  state _ (publishAll published (construct children)) !! key
  = match lastPublishedUnder children key published with
    | Some s => Some s
    | None => initialState _ children !! key
    end.
Proof.
  induction published as [|[j s] published IH] using rev_ind.
  - reflexivity.
  - rewrite publishAll_snoc, lastPublishedUnder_snoc. unfold publish.
    destruct (children !! j) as [cj|] eqn:Hj.
    + rewrite (publishAll_children children published j cj Hj).
      cbn [state update child_name].
      destruct (String.eqb_spec (child_name _ cj) key) as [-> | Hne].
      * apply lookup_insert_eq.
      * rewrite lookup_insert_ne by exact Hne. exact IH.
    + assert (Hnone : controllers _ (publishAll published (construct children)) !! j = None).
      { apply lookup_ge_None. rewrite publishAll_length. simpl.
        apply lookup_ge_None. exact Hj. }
      rewrite Hnone. exact IH.
Qed.

End CompositionRunFacts.

Lemma flatState_follows_children_witness :
  flatState _ (publishAll _ [(0%nat, "ropsten"); (1%nat, "0xdbF0"); (0%nat, "kovan")]
                 (construct string [networkChild; preferencesChild]))
    !! string_of_index 0
  = Some "kovan".
Proof.
  apply (flatState_follows_children string [networkChild; preferencesChild]
           [(0%nat, "ropsten"); (1%nat, "0xdbF0"); (0%nat, "kovan")] 0%nat networkChild
           eq_refl).
Defined.

(* ===================================================================== *)
(** ** Facts about NotificationController *)

Section NotificationFacts.

Import Notifications.

Implicit Types (all : list (Z * Notification)) (st : gmap Z StateNotification).
Implicit Types (viewedIds : list (Z * bool)) (keys : list Z).

Lemma addNotifications_snoc all st (k : Z) (n : Notification) :
  _addNotifications (all ++ [(k, n)]) st
  = <[id n := match st !! id n with
              | Some known => known
              | None => unseen n
              end]> (_addNotifications all st).
Proof.
  unfold _addNotifications. rewrite List.map_app, fold_left_app. reflexivity.
Qed.

Lemma lastWithId_snoc all (k key : Z) (n : Notification) :
  lastWithId (all ++ [(k, n)]) key
  = if id n =? key then Some n else lastWithId all key.
Proof.
  unfold lastWithId. rewrite List.map_app, fold_left_app. reflexivity.
Qed.

Lemma lastWithId_Some all (key : Z) (n : Notification) :
  lastWithId all key = Some n -> id n = key /\ In n (List.map snd all).
Proof.
  induction all as [|[k m] all IH] using rev_ind; [discriminate|].
  rewrite lastWithId_snoc, List.map_app. destruct (Z.eqb_spec (id m) key) as [Heq | Hne].
  - intros [= <-]. split; [exact Heq|]. apply in_or_app. right. left. reflexivity.
  - intros Hlast. destruct (IH Hlast) as [Hid Hin]. split; [exact Hid|].
    apply in_or_app. left. exact Hin.
Qed.

Lemma lastWithId_announced all (key : Z) :
  In key (announced all) <-> exists n, lastWithId all key = Some n.
Proof.
  unfold announced.
  induction all as [|[k m] all IH] using rev_ind.
  - simpl. split; [tauto | intros [n Hn]; discriminate].
  - rewrite List.map_app, lastWithId_snoc. simpl. rewrite in_app_iff, IH. simpl.
    destruct (Z.eqb_spec (id m) key) as [Heq | Hne].
    + split; [intros _; eexists; reflexivity | intros _; right; left; exact Heq].
    + split; [intros [H | [H | []]]; [exact H | contradiction] | intros H; left; exact H].
Qed.

(** What [_addNotifications] leaves under an id: nothing if no notification
    of the configuration bears it, else the notification the state had, or
    the last of the configuration that bears the id, not shown. *)
Lemma addNotifications_lookup all st (key : Z) :
  _addNotifications all st !! key
  = match lastWithId all key with
    | None => None
    | Some n => Some match st !! key with
                     | Some known => known
                     | None => unseen n
                     end
    end.
Proof.
  induction all as [|[k m] all IH] using rev_ind; [reflexivity|].
  rewrite addNotifications_snoc, lastWithId_snoc.
  destruct (Z.eqb_spec (id m) key) as [<- | Hne].
  - apply lookup_insert_eq.
  - rewrite lookup_insert_ne by exact Hne. exact IH.
Qed.

Lemma addNotifications_dom all st :
  dom (_addNotifications all st) = list_to_set (announced all).
Proof.
  apply set_eq. intros key.
  rewrite elem_of_dom, elem_of_list_to_set, list_elem_of_In, lastWithId_announced.
  rewrite addNotifications_lookup.
  destruct (lastWithId all key) as [n|].
  - split; [intros _; eexists; reflexivity | intros _; eexists; reflexivity].
  - split; [intros [x Hx]; discriminate | intros [n Hn]; discriminate].
Qed.

(** X17.  After [_addNotifications] the state holds a notification under exactly
    the ids the configuration announces: what is announced and new enters,
    what the state held and is no longer announced is dropped. *)
Theorem notifications_follow_the_configuration all st :
  dom (_addNotifications all st) = list_to_set (announced all)
  /\ (forall key, ~ In key (announced all) -> _addNotifications all st !! key = None).
Proof.
  split; [apply addNotifications_dom|].
  intros key Hnot. apply not_elem_of_dom.
  rewrite addNotifications_dom, elem_of_list_to_set, list_elem_of_In. exact Hnot.
Qed.

(** X18.  A notification the state already has under an announced id is taken over
    untouched, with the flag it had; an announced id the state does not have
    gets a notification of the configuration with that id, with [isShown]
    false. *)
Theorem known_notifications_are_kept all st (key : Z) :
  In key (announced all) ->
  (forall known, st !! key = Some known -> _addNotifications all st !! key = Some known)
  /\ (st !! key = None ->
      exists n, In n (List.map snd all) /\ id n = key
                /\ _addNotifications all st !! key
                   = Some {| notification := n; isShown := false |}
                /\ isShown <$> _addNotifications all st !! key = Some false).
Proof.
  intros Hin. apply lastWithId_announced in Hin as (n & Hlast).
  rewrite addNotifications_lookup, Hlast. split.
  - intros known ->. reflexivity.
  - intros ->. destruct (lastWithId_Some all key n Hlast) as [Hid Hn].
    exists n. repeat split; assumption.
Qed.

(** A state that holds exactly the announced ids is left as it is. *)
Lemma addNotifications_fixpoint all st :
  dom st = list_to_set (announced all) -> _addNotifications all st = st.
Proof.
  intros Hdom. apply map_eq. intros key. rewrite addNotifications_lookup.
  destruct (lastWithId all key) as [n|] eqn:Hlast.
  - assert (Hin : key ∈ dom st).
    { rewrite Hdom, elem_of_list_to_set, list_elem_of_In, lastWithId_announced. eauto. }
    apply elem_of_dom in Hin as [known Hknown]. rewrite Hknown. reflexivity.
  - symmetry. apply not_elem_of_dom.
    rewrite Hdom, elem_of_list_to_set, list_elem_of_In, lastWithId_announced.
    intros [n Hn]. congruence.
Qed.

(** X19.  Running [_addNotifications] again on its own result changes nothing: a
    controller constructed from the state of another with the same
    configuration has that very state. *)
Theorem addNotifications_idempotent all (state : option (gmap Z StateNotification)) :
  construct all (Some (construct all state)) = construct all state.
Proof.
  unfold construct at 1. apply addNotifications_fixpoint.
  apply addNotifications_dom.
Qed.

Lemma viewLoop_dom viewedIds keys :
  forall st, dom (snd (viewLoop viewedIds keys st)) = dom st.
Proof.
  induction keys as [|key keys IH]; intros st; simpl; [reflexivity|].
  destruct (st !! key) as [n|] eqn:Hkey; [|reflexivity].
  rewrite IH. apply dom_insert_lookup_L. eauto.
Qed.

Lemma viewLoop_returns viewedIds keys :
  forall st,
    (forall key, In key keys -> key ∈ dom st) ->
    fst (viewLoop viewedIds keys st) = Returned tt
    /\ (forall key, In key keys ->
          snd (viewLoop viewedIds keys st) !! key
          = setShown (flagOf viewedIds key) <$> st !! key)
    /\ (forall key, ~ In key keys -> snd (viewLoop viewedIds keys st) !! key = st !! key).
Proof.
  induction keys as [|k keys IH]; intros st Hkeys; simpl.
  - repeat split; tauto.
  - destruct (elem_of_dom st k) as [Hsome _].
    destruct (Hsome (Hkeys k (or_introl eq_refl))) as [n Hn]. rewrite Hn.
    destruct (IH (<[k := setShown (flagOf viewedIds k) n]> st)) as (Hret & Hin & Hout).
    { intros key Hkey. rewrite dom_insert_L. apply elem_of_union_r.
      apply Hkeys. right. exact Hkey. }
    split; [exact Hret|]. split.
    + intros key Hkey.
      destruct (in_dec Z.eq_dec key keys) as [Hlater | Hnot].
      * rewrite (Hin key Hlater). destruct (Z.eq_dec k key) as [-> | Hne].
        -- rewrite lookup_insert_eq, Hn. reflexivity.
        -- rewrite lookup_insert_ne by exact Hne. reflexivity.
      * destruct Hkey as [-> | Hkey]; [|contradiction].
        rewrite (Hout key Hnot), lookup_insert_eq, Hn. reflexivity.
    + intros key Hkey. rewrite Hout by tauto.
      apply lookup_insert_ne. intros ->. apply Hkey. left. reflexivity.
Qed.

Lemma viewLoop_throws viewedIds keys :
  forall st,
    (exists key, In key keys /\ key ∉ dom st) ->
    fst (viewLoop viewedIds keys st) = Threw.
Proof.
  induction keys as [|k keys IH]; intros st (bad & Hin & Hbad); [destruct Hin|].
  simpl. destruct (st !! k) as [n|] eqn:Hk; [|reflexivity].
  apply IH. exists bad. destruct Hin as [-> | Hin].
  - exfalso. apply Hbad. apply elem_of_dom. eauto.
  - split; [exact Hin|]. rewrite dom_insert_lookup_L by eauto. exact Hbad.
Qed.


(** X21.  [updateViewed] throws exactly when it is handed an id the state has no
    notification for; and whether it throws or returns, it neither adds nor
    removes a notification. *)
Theorem updateViewed_throws_on_unknown_id viewedIds st :
  (fst (updateViewed viewedIds st) = Threw
   <-> exists key, In key (List.map fst viewedIds) /\ st !! key = None)
  /\ dom (snd (updateViewed viewedIds st)) = dom st.
Proof.
  split; [|apply viewLoop_dom]. split.
  - intros Hthrew.
    destruct (existsb (fun key => bool_decide (st !! key = None)) (List.map fst viewedIds))
      eqn:Hex.
    + apply existsb_exists in Hex as (key & Hin & Hnone).
      apply bool_decide_eq_true in Hnone. eauto.
    + exfalso.
      destruct (viewLoop_returns viewedIds (List.map fst viewedIds) st) as (Hret & _).
      * intros key Hin. apply elem_of_dom.
        destruct (st !! key) eqn:Hkey; [eauto|]. exfalso.
        assert (Hcontra : existsb (fun key => bool_decide (st !! key = None))
                            (List.map fst viewedIds) = true).
        { apply existsb_exists. exists key. split; [exact Hin|].
          apply bool_decide_eq_true. exact Hkey. }
        rewrite Hcontra in Hex. discriminate.
      * unfold updateViewed in Hthrew. rewrite Hret in Hthrew. discriminate.
  - intros (key & Hin & Hnone). apply viewLoop_throws. exists key.
    split; [exact Hin|]. apply not_elem_of_dom. exact Hnone.
Qed.

Lemma announced_in_dom all (state : option (gmap Z StateNotification)) viewedIds :
  (forall key, In key (List.map fst viewedIds) -> In key (announced all)) ->
  forall key, In key (List.map fst viewedIds) -> key ∈ dom (construct all state).
Proof.
  intros Hkeys key Hin. unfold construct.
  rewrite addNotifications_dom, elem_of_list_to_set, list_elem_of_In.
  apply Hkeys. exact Hin.
Qed.

(** X22.  Once the controller is constructed, [updateViewed] returns for any ids
    among those the configuration announces, whatever state the controller
    was constructed from. *)
Theorem viewing_announced_ids_never_throws all viewedIds
  (state : option (gmap Z StateNotification)) :
  (forall key, In key (List.map fst viewedIds) -> In key (announced all)) ->
  fst (updateViewed viewedIds (construct all state)) = Returned tt.
Proof.
  intros Hkeys.
  apply (viewLoop_returns viewedIds (List.map fst viewedIds) (construct all state)).
  apply announced_in_dom. exact Hkeys.
Qed.


End NotificationFacts.

Lemma known_notifications_are_kept_witness :
  Notifications._addNotifications announcements seenBefore !! 1
  = Some {| Notifications.notification := welcome; Notifications.isShown := true |}
  /\ Notifications.isShown <$> Notifications._addNotifications announcements seenBefore !! 2
     = Some false.
Proof.
  split.
  - apply (proj1 (known_notifications_are_kept announcements seenBefore 1
                    (or_introl eq_refl))).
    reflexivity.
  - destruct (proj2 (known_notifications_are_kept announcements seenBefore 2
                       (or_intror (or_introl eq_refl))) eq_refl)
      as (n & _ & _ & _ & Hflag).
    exact Hflag.
Defined.


Lemma viewing_announced_ids_never_throws_witness :
  fst (Notifications.updateViewed [(1, false); (2, true)]
         (Notifications.construct announcements None))
  = Returned tt.
Proof.
  apply (viewing_announced_ids_never_throws announcements [(1, false); (2, true)] None).
  intros key [<- | [<- | []]]; [left | right; left]; reflexivity.
Defined.

